(** * KryneEngine [FlatHashMap]: a shallow embedding of
    [Core/Memory/Containers/FlatHashMap.{hpp,inl}].

    Conventions of the embedding.
    - The target is a 64-bit one ([sizeof(size_t) == 8]); [size_t] and [u64]
      values are [N] with the wrap-around written as [wrap64].
    - The two buffers are lists; a null buffer is the empty list.  A slot of
      the key-value buffer is [None] while no pair was ever constructed in it.
    - An iterator is the offset of its slot from [begin()]; [end()] is the
      offset [m_capacity].
    - Behaviour the language leaves undefined (division by zero, reads and
      writes outside a buffer, reads of a slot never constructed) and the
      engine's [KE_ASSERT]/[KE_ERROR] are results of their own, see [fault].
    - [kUseSimd], the alignment of the widest SIMD architecture and the width
      of its byte batch are build-time constants: they are parameters. *)

From Stdlib Require Import NArith Lia.
From stdpp Require Import base numbers option list.

Local Open Scope N_scope.

(** ** Results of operations *)

Inductive fault : Set :=
| DivideByZero        (* [x % 0] *)
| OutOfBounds         (* access outside an allocated buffer *)
| UninitializedRead   (* read of a slot in which nothing was constructed *)
| AssertionFailed     (* a failed [KE_ASSERT] *)
| UnreachableCode     (* [KE_ERROR("Unreachable code")] *)
| OutOfFuel.          (* the model ran out of steps *)

Inductive result (A : Type) : Type :=
| Ok (a : A)
| Fault (f : fault).
Arguments Ok {A} a.
Arguments Fault {A} f.

Definition bind {A B : Type} (r : result A) (f : A -> result B) : result B :=
  match r with
  | Ok a => f a
  | Fault e => Fault e
  end.

Notation "x <- e ;; k" := (bind e (fun x => k))
  (at level 100, e at next level, right associativity).

Definition ke_assert (b : bool) : result unit :=
  if b then Ok tt else Fault AssertionFailed.

(** ** Machine arithmetic *)

Definition wrap64 (x : N) : N := x mod 2 ^ 64.

(** [a % b] on [size_t]. *)
Definition umod (a b : N) : result N :=
  if b =? 0 then Fault DivideByZero else Ok (a mod b).

(** [--x] on [size_t]. *)
Definition dec64 (x : N) : N := wrap64 (x + (2 ^ 64 - 1)).

(** Modelled from the spec: [Alignment::AlignUp] is not among the sources;
    capacities are "rounded up to batch alignment", the next multiple of the
    alignment, which is positive. *)
Definition AlignUp (value alignment : N) : N :=
  wrap64 (wrap64 (value + alignment + (2 ^ 64 - 1)) / alignment * alignment).

Fixpoint lsb_pos (p : positive) : N :=
  match p with
  | xO p' => N.succ (lsb_pos p')
  | _ => 0
  end.

(** Modelled from the spec: [BitUtils::GetLeastSignificantBit] is not among
    the sources; it is the index of the lowest set bit, which orders the lanes
    of a mask "in probe order".  It is never called on 0. *)
Definition GetLeastSignificantBit (x : N) : N :=
  match x with
  | N0 => 64
  | Npos p => lsb_pos p
  end.

(** Modelled from the spec: [BitUtils::BitMask<u64>] is not among the sources;
    [BitMask n] keeps the [n] lanes that precede lane [n]. *)
Definition BitMask (n : N) : N := wrap64 (2 ^ n - 1).

(** [.mask()] of a lane-wise comparison: bit [j] is the outcome of lane [j]. *)
Fixpoint maskOf (p : N -> bool) (batch : list N) : N :=
  match batch with
  | [] => 0
  | c :: rest => N.b2n (p c) + 2 * maskOf p rest
  end.

(** ** Constants of the class *)

Definition kUnused : N := 128.            (* 0b1000'0000 *)
Definition kTombstone : N := 129.         (* 0b1000'0001 *)
Definition kAvailableSlotFlag : N := 128. (* 1 << 7 *)

Section FlatHashMap.
Context {Key Value : Type} `{EqDecision Key}.

(** [eastl::hash<Key>] *)
Variable hash : Key -> N.
(** [kUseSimd] *)
Variable kUseSimd : bool.
(** [Math::SimdHighestArch::alignment()] *)
Variable simdAlignment : N.
(** [xsimd::batch<u8, Arch>::size] *)
Variable batchSize : nat.

Definition kvp : Type := Key * Value.
Definition iterator : Type := N.

Definition kControlAlignment : N := if kUseSimd then 1 else simdAlignment.
Definition kControlBufferPadding : N :=
  if kControlAlignment =? 1 then 0 else kControlAlignment.

Record FlatHashMap : Type := mkFlatHashMap {
  m_capacity : N;
  m_count : N;
  m_kvpBuffer : list (option kvp);
  m_controlBuffer : list N
}.

(** A default-constructed (or moved-from) map. *)
Definition emptyMap : FlatHashMap :=
  {| m_capacity := 0; m_count := 0; m_kvpBuffer := []; m_controlBuffer := [] |}.

Definition begin_ (m : FlatHashMap) : iterator := 0.
Definition end_ (m : FlatHashMap) : iterator := m_capacity m.

(** *** Memory accesses *)

Definition readControl (m : FlatHashMap) (i : N) : result N :=
  match m_controlBuffer m !! N.to_nat i with
  | Some c => Ok c
  | None => Fault OutOfBounds
  end.

Definition writeControl (m : FlatHashMap) (i : N) (c : N) : result FlatHashMap :=
  if (N.to_nat i <? length (m_controlBuffer m))%nat then
    Ok {| m_capacity := m_capacity m; m_count := m_count m;
          m_kvpBuffer := m_kvpBuffer m;
          m_controlBuffer := <[N.to_nat i := c]> (m_controlBuffer m) |}
  else Fault OutOfBounds.

Definition readKvp (m : FlatHashMap) (i : N) : result kvp :=
  match m_kvpBuffer m !! N.to_nat i with
  | Some (Some kv) => Ok kv
  | Some None => Fault UninitializedRead
  | None => Fault OutOfBounds
  end.

(** [new (it) kvp(_kvp)] *)
Definition constructKvp (m : FlatHashMap) (i : N) (kv : kvp) : result FlatHashMap :=
  if (N.to_nat i <? length (m_kvpBuffer m))%nat then
    Ok {| m_capacity := m_capacity m; m_count := m_count m;
          m_kvpBuffer := <[N.to_nat i := Some kv]> (m_kvpBuffer m);
          m_controlBuffer := m_controlBuffer m |}
  else Fault OutOfBounds.

Definition setCount (m : FlatHashMap) (n : N) : FlatHashMap :=
  {| m_capacity := m_capacity m; m_count := n;
     m_kvpBuffer := m_kvpBuffer m; m_controlBuffer := m_controlBuffer m |}.

(** [m_kvpBuffer[i].first == _key] *)
Definition keyEquals (m : FlatHashMap) (i : N) (key : Key) : result bool :=
  kv <- readKvp m i;; Ok (bool_decide (kv.1 = key)).

(** [xsimd::load_unaligned(m_controlBuffer + probeIndex)] *)
Definition loadBatch (m : FlatHashMap) (probeIndex : N) : result (list N) :=
  let lanes := take batchSize (drop (N.to_nat probeIndex) (m_controlBuffer m)) in
  if (length lanes =? batchSize)%nat then Ok lanes else Fault OutOfBounds.

(** *** Hash and control derivation *)

Definition hashOf (key : Key) : N := wrap64 (hash key).
(** [const u8 control = hash >> 57] *)
Definition controlOf (key : Key) : N := (N.shiftr (hashOf key) 57) mod 256.

Definition isAvailable (c : N) : bool :=
  negb (N.land c kAvailableSlotFlag =? 0).

(** [IsValidEntry] *)
Definition IsValidEntry (m : FlatHashMap) (it : iterator) : result bool :=
  c <- readControl m it;; Ok (N.land c kAvailableSlotFlag =? 0).

(** *** [Find] *)

(** The scalar branch.  [n] is [m_capacity - i].  [control] is the slot the
    reference [u8& control = m_controlBuffer[probeIndex]] was bound to before
    the loop: a reference is never re-seated, so every test of [control]
    reads that slot, whatever [probeIndex] has become. *)
Fixpoint FindScalarLoop (n : nat) (m : FlatHashMap) (key : Key)
    (expectedControl control probeIndex : N) : result iterator :=
  match n with
  | O => Ok (end_ m)
  | S n' =>
      c <- readControl m control;;
      if c =? kUnused then Ok (end_ m)
      else
        hit <- (if c =? expectedControl then keyEquals m probeIndex key
               else Ok false);;
        if hit then Ok probeIndex
        else FindScalarLoop n' m key expectedControl control
               ((probeIndex + 1) mod m_capacity m)
  end.

(** The inner [while (matchMask != 0)] of the vectorized branches; it
    yields the slot whose key compared equal, if any.  The loop need not
    terminate, hence [fuel]. *)
Fixpoint MatchLoop (fuel : nat) (m : FlatHashMap) (key : Key)
    (probeIndex matchMask offset : N) : result (option iterator) :=
  if matchMask =? 0 then Ok None
  else
    match fuel with
    | O => Fault OutOfFuel
    | S fuel' =>
        let bitIndex := GetLeastSignificantBit matchMask in
        let offset := wrap64 (offset + bitIndex) in
        let matchMask := wrap64 (N.shiftl matchMask bitIndex) in
        hit <- keyEquals m (probeIndex + offset) key;;
        if hit then Ok (Some (probeIndex + offset))
        else MatchLoop fuel' m key probeIndex matchMask offset
    end.

(** [unusedMask == 0 ? ~0ull : BitMask(GetLeastSignificantBit(unusedMask))] *)
Definition lanesBeforeUnused (unusedMask : N) : N :=
  if unusedMask =? 0 then 2 ^ 64 - 1
  else BitMask (GetLeastSignificantBit unusedMask).

(** The vectorized branch.  [n] bounds the number of batches. *)
Fixpoint FindSimdLoop (n fuel : nat) (m : FlatHashMap) (key : Key)
    (expectedControl i probeIndex : N) : result iterator :=
  if negb (i <? m_capacity m) then Ok (end_ m)
  else
    match n with
    | O => Fault OutOfFuel
    | S n' =>
        controlBatch <- loadBatch m probeIndex;;
        let unusedMask := maskOf (fun c => c =? kUnused) controlBatch in
        let expectedMask := maskOf (fun c => c =? expectedControl) controlBatch in
        let next := FindSimdLoop n' fuel m key expectedControl
                      (wrap64 (i + kControlAlignment))
                      (wrap64 (probeIndex + kControlAlignment) mod m_capacity m) in
        if expectedMask =? 0 then
          if negb (unusedMask =? 0) then Ok (end_ m) else next
        else
          let matchMask := N.land expectedMask (lanesBeforeUnused unusedMask) in
          found <- MatchLoop fuel m key probeIndex matchMask 0;;
          match found with
          | Some it => Ok it
          | None => if negb (unusedMask =? 0) then Ok (end_ m) else next
          end
    end.

Definition Find (fuel : nat) (m : FlatHashMap) (key : Key) : result iterator :=
  let hash := hashOf key in
  let expectedControl := (N.shiftr hash 57) mod 256 in
  probeIndex <- umod hash (m_capacity m);;
  if negb kUseSimd then
    FindScalarLoop (N.to_nat (m_capacity m)) m key expectedControl probeIndex probeIndex
  else
    FindSimdLoop (N.to_nat (m_capacity m)) fuel m key expectedControl 0 probeIndex.

(** *** [Remove] *)

Definition Remove (fuel : nat) (m : FlatHashMap) (key : Key)
    : result (FlatHashMap * bool) :=
  it <- Find fuel m key;;
  if negb (it =? end_ m) then
    m' <- writeControl (setCount m (dec64 (m_count m))) it kTombstone;;
    Ok (m', true)
  else Ok (m, false).

(** *** [FindAndAllocateSlot] *)

(** [loadFactor > kMaxLoadFactor], with
    [loadFactor = double(m_count + 1) / double(m_capacity)] and
    [kMaxLoadFactor = 0.7].  The quotient is taken exactly: below [2^53] the
    conversions to [double] are exact, and the correctly rounded quotient
    exceeds the [double] nearest to 0.7 exactly when the quotient exceeds
    7/10. *)
Definition loadFactorExceeded (m : FlatHashMap) : bool :=
  7 * m_capacity m <? 10 * wrap64 (m_count m + 1).

(** The branch taken when a slot is claimed. *)
Definition claimSlot (m : FlatHashMap) (index control : N)
    : result (FlatHashMap * (iterator * bool)) :=
  m' <- writeControl m index control;;
  Ok (setCount m' (wrap64 (m_count m' + 1)), (index, true)).

(** Scalar branch; [n] is [m_capacity - i]. *)
Fixpoint AllocScalarLoop (n : nat) (Fast : bool) (m : FlatHashMap) (key : Key)
    (control probeIndex : N) : result (FlatHashMap * (iterator * bool)) :=
  match n with
  | O => Fault UnreachableCode
  | S n' =>
      controlSlot <- readControl m probeIndex;;
      hit <- (if Fast then Ok false
             else if controlSlot =? control then keyEquals m probeIndex key
             else Ok false);;
      if hit then Ok (m, (probeIndex, false))
      else if isAvailable controlSlot then claimSlot m probeIndex control
      else AllocScalarLoop n' Fast m key control
             ((probeIndex + 1) mod m_capacity m)
  end.

Definition availableMaskOf (controlBatch : list N) : N :=
  maskOf (fun c => N.land c kAvailableSlotFlag =? kAvailableSlotFlag) controlBatch.

(** Vectorized branch, [Fast]. *)
Fixpoint AllocSimdFastLoop (n : nat) (m : FlatHashMap) (control i probeIndex : N)
    : result (FlatHashMap * (iterator * bool)) :=
  if negb (i <? m_capacity m) then Fault UnreachableCode
  else
    match n with
    | O => Fault OutOfFuel
    | S n' =>
        controlBatch <- loadBatch m probeIndex;;
        let availableMask := availableMaskOf controlBatch in
        let firstIndex := GetLeastSignificantBit availableMask in
        if negb (availableMask =? 0)
           && (wrap64 (firstIndex + probeIndex) <? m_capacity m) then
          claimSlot m (probeIndex + firstIndex) control
        else
          AllocSimdFastLoop n' m control
            (wrap64 (i + kControlAlignment))
            (wrap64 (probeIndex + kControlAlignment) mod m_capacity m)
    end.

(** The two identical claiming branches of the stable vectorized loop. *)
Definition claimFirstAvailable (m : FlatHashMap) (firstAvailableIndex control : N)
    : result (FlatHashMap * (iterator * bool)) :=
  _ <- ke_assert (firstAvailableIndex <? m_capacity m);;
  claimSlot m firstAvailableIndex control.

(** Vectorized branch, not [Fast]. *)
Fixpoint AllocSimdStableLoop (n fuel : nat) (m : FlatHashMap) (key : Key)
    (control firstAvailableIndex i probeIndex : N)
    : result (FlatHashMap * (iterator * bool)) :=
  if negb (i <? m_capacity m) then Fault UnreachableCode
  else
    match n with
    | O => Fault OutOfFuel
    | S n' =>
        controlBatch <- loadBatch m probeIndex;;
        let firstAvailableIndex :=
          if m_capacity m <=? firstAvailableIndex then
            let availableMask := availableMaskOf controlBatch in
            if negb (availableMask =? 0)
            then wrap64 (probeIndex + GetLeastSignificantBit availableMask)
            else firstAvailableIndex
          else firstAvailableIndex in
        let controlMask := maskOf (fun c => c =? control) controlBatch in
        let unusedMask := maskOf (fun c => c =? kUnused) controlBatch in
        let next := AllocSimdStableLoop n' fuel m key control firstAvailableIndex
                      (wrap64 (i + kControlAlignment))
                      (wrap64 (probeIndex + kControlAlignment) mod m_capacity m) in
        if controlMask =? 0 then
          if negb (unusedMask =? 0)
          then claimFirstAvailable m firstAvailableIndex control
          else next
        else
          let matchMask := N.land controlMask (lanesBeforeUnused unusedMask) in
          found <- MatchLoop fuel m key probeIndex matchMask 0;;
          match found with
          | Some it => Ok (m, (it, false))
          | None =>
              if negb (unusedMask =? 0)
              then claimFirstAvailable m firstAvailableIndex control
              else next
          end
    end.

(** The load-factor pre-check that opens [FindAndAllocateSlot]; [grow] is
    [Grow]. *)
Definition growIfNeeded (grow : FlatHashMap -> N -> result FlatHashMap)
    (m : FlatHashMap) : result FlatHashMap :=
  if m_capacity m =? 0 then grow m 32
  else if loadFactorExceeded m then grow m (wrap64 (m_capacity m * 2))
  else Ok m.

(** What follows the pre-check. *)
Definition probeAndAllocate (fuel : nat) (Fast : bool) (m : FlatHashMap) (key : Key)
    : result (FlatHashMap * (iterator * bool)) :=
  let hash := hashOf key in
  let control := (N.shiftr hash 57) mod 256 in
  _ <- ke_assert (N.land control kAvailableSlotFlag =? 0);;
  probeIndex <- umod hash (m_capacity m);;
  if kUseSimd then
    if Fast then
      AllocSimdFastLoop (N.to_nat (m_capacity m)) m control 0 probeIndex
    else
      AllocSimdStableLoop (N.to_nat (m_capacity m)) fuel m key control
        (m_capacity m) 0 probeIndex
  else
    AllocScalarLoop (N.to_nat (m_capacity m)) Fast m key control probeIndex.

Definition FindAndAllocateSlotWith (grow : FlatHashMap -> N -> result FlatHashMap)
    (fuel : nat) (Fast : bool) (m : FlatHashMap) (key : Key)
    : result (FlatHashMap * (iterator * bool)) :=
  m' <- growIfNeeded grow m;;
  probeAndAllocate fuel Fast m' key.

(** [EmplaceUnstable] and [InsertUnstable] (the same body). *)
Definition InsertUnstableWith (grow : FlatHashMap -> N -> result FlatHashMap)
    (fuel : nat) (m : FlatHashMap) (kv : kvp) : result (FlatHashMap * iterator) :=
  r <- FindAndAllocateSlotWith grow fuel true m kv.1;;
  let '(m', (it, inserted)) := r in
  _ <- ke_assert (negb (it =? end_ m') && inserted);;
  m'' <- constructKvp m' it kv;;
  Ok (m'', it).

(** *** Construction, [Grow], [Defragment] *)

(** The constructor [FlatHashMap(_allocator, _initialCapacity)]. *)
Definition constructWith (grow : FlatHashMap -> N -> result FlatHashMap)
    (initialCapacity : N) : result FlatHashMap :=
  if 0 <? initialCapacity then grow emptyMap initialCapacity else Ok emptyMap.

(** [for (auto i = 0; i < m_count; ++i)] of [Grow]; [n] is [m_count - i]. *)
Fixpoint GrowLoop (insertUnstable : FlatHashMap -> kvp -> result (FlatHashMap * iterator))
    (m : FlatHashMap) (n : nat) (i : N) (temp : FlatHashMap) : result FlatHashMap :=
  match n with
  | O => Ok temp
  | S n' =>
      c <- readControl m i;;
      temp' <- (if N.land c kAvailableSlotFlag =? 0 then
                 kv <- readKvp m i;;
                 r <- insertUnstable temp kv;;
                 Ok r.1
               else Ok temp);;
      GrowLoop insertUnstable m n' (i + 1) temp'
  end.

(** [fuel] bounds the nesting of [Grow] inside the unstable inserts into the
    temporary map. *)
Fixpoint Grow (fuel : nat) (m : FlatHashMap) (newCapacity : N) : result FlatHashMap :=
  match fuel with
  | O => Fault OutOfFuel
  | S fuel' =>
      if m_capacity m =? 0 then
        let newCapacity := AlignUp newCapacity kControlAlignment in
        Ok {| m_capacity := newCapacity;
                m_count := 0;
                m_kvpBuffer := replicate (N.to_nat newCapacity) None;
                m_controlBuffer :=
                  replicate (N.to_nat (newCapacity + kControlBufferPadding)) kUnused |}
      else
        temp <- constructWith (Grow fuel') newCapacity;;
        GrowLoop (InsertUnstableWith (Grow fuel') fuel') m (N.to_nat (m_count m)) 0 temp
  end.

Definition FlatHashMap_new (fuel : nat) (initialCapacity : N) : result FlatHashMap :=
  constructWith (Grow fuel) initialCapacity.

Definition FindAndAllocateSlot (fuel : nat) (Fast : bool) (m : FlatHashMap) (key : Key)
    : result (FlatHashMap * (iterator * bool)) :=
  FindAndAllocateSlotWith (Grow fuel) fuel Fast m key.

(** [Insert] and [Emplace] (the same body). *)
Definition Insert (fuel : nat) (m : FlatHashMap) (kv : kvp)
    : result (FlatHashMap * (iterator * bool)) :=
  r <- FindAndAllocateSlot fuel false m kv.1;;
  let '(m', (it, inserted)) := r in
  _ <- ke_assert (negb (it =? end_ m'));;
  if inserted then
    m'' <- constructKvp m' it kv;;
    Ok (m'', (it, true))
  else Ok (m', (it, false)).

Definition Emplace := Insert.

Definition InsertUnstable (fuel : nat) (m : FlatHashMap) (kv : kvp)
    : result (FlatHashMap * iterator) :=
  InsertUnstableWith (Grow fuel) fuel m kv.

Definition EmplaceUnstable := InsertUnstable.

(** [for (iterator it = begin(); it != end(); ++it)] of [Defragment]; [n] is
    the distance from [it] to [end()]. *)
Fixpoint DefragmentLoop (fuel : nat) (m : FlatHashMap) (n : nat) (it : iterator)
    (temp : FlatHashMap) : result FlatHashMap :=
  match n with
  | O => Ok temp
  | S n' =>
      valid <- IsValidEntry m it;;
      temp' <- (if negb valid then Ok temp
               else
                 kv <- readKvp m it;;
                 r <- EmplaceUnstable fuel temp kv;;
                 Ok r.1);;
      DefragmentLoop fuel m n' (it + 1) temp'
  end.

Definition Defragment (fuel : nat) (m : FlatHashMap) : result FlatHashMap :=
  if m_capacity m =? 0 then Ok m
  else
    temp <- FlatHashMap_new fuel (m_capacity m);;
    DefragmentLoop fuel m (N.to_nat (m_capacity m)) (begin_ m) temp.

(** *** Observations used by the statements *)

(** The pairs held by occupied slots, in slot order. *)
Fixpoint entriesOf (controls : list N) (slots : list (option kvp)) : list kvp :=
  match controls, slots with
  | c :: controls', s :: slots' =>
      match s with
      | Some kv => if isAvailable c then entriesOf controls' slots'
                   else kv :: entriesOf controls' slots'
      | None => entriesOf controls' slots'
      end
  | _, _ => []
  end.

Definition entries (m : FlatHashMap) : list kvp :=
  entriesOf (m_controlBuffer m) (m_kvpBuffer m).

End FlatHashMap.

Arguments FlatHashMap : clear implicits.
Arguments kvp : clear implicits.
Arguments emptyMap : clear implicits.

(** ** The instance of the examples

    Keys and values are 64-bit integers; [eastl::hash] of an integer is the
    integer itself.  The scalar build is the NEON one ([kUseSimd] is false
    there, the architecture's alignment is 16); the vectorized build is the
    16-lane SSE one. *)

Module U64.
Definition map : Type := FlatHashMap N N.
Definition hash_u64 (k : N) : N := k.
Definition fuel : nat := 64.

(** Two keys with the same start index 0 and the fragments 0 and 1. *)
Definition keyA : N := 0.
Definition keyB : N := 2 ^ 57.
(** A key with the start index (at capacity 32) and the fragment of [keyA]. *)
Definition keyC : N := 32.
(** A key with the start index (at capacity 16) and the fragment of [keyA]. *)
Definition keyD : N := 16.

Definition state {A : Type} (r : result (map * A)) : result map :=
  p <- r ;; Ok p.1.

Module Scalar.
Definition Find := Find (Value := N) hash_u64 false 16 16 fuel.
Definition Insert := Insert (Value := N) hash_u64 false 16 16 fuel.
Definition Remove := Remove (Value := N) hash_u64 false 16 16 fuel.
Definition Grow := Grow (Value := N) hash_u64 false 16 16 fuel.
Definition Defragment := Defragment (Value := N) hash_u64 false 16 16 fuel.
Definition new := FlatHashMap_new (Value := N) hash_u64 false 16 16 fuel.

Fixpoint insertAll (m : map) (kvs : list (kvp N N)) : result map :=
  match kvs with
  | [] => Ok m
  | kv :: rest => m' <- state (Insert m kv) ;; insertAll m' rest
  end.

(** [Insert({keyA, 10}); Insert({keyB, 20})] on a default-constructed map. *)
Definition mapAB : result map :=
  insertAll (emptyMap N N) [(keyA, 10); (keyB, 20)].

(** [Insert({keyA, 10}); Insert({keyB, 20}); Remove(keyA)]. *)
Definition mapAB_minusA : result map :=
  m <- mapAB ;; state (Remove m keyA).

(** The state [mapAB_minusA] reaches, written out: a tombstone in slot 0,
    [keyB] in slot 1. *)
Definition tombstoned : map :=
  {| m_capacity := 32;
     m_count := 1;
     m_kvpBuffer := [Some (keyA, 10); Some (keyB, 20)] ++ replicate 30 None;
     m_controlBuffer := [129; 1] ++ replicate 46 128 |}.

(** What [Defragment] makes of it. *)
Definition defragmented : map :=
  {| m_capacity := 32;
     m_count := 1;
     m_kvpBuffer := Some (keyB, 20) :: replicate 31 None;
     m_controlBuffer := 1 :: replicate 47 128 |}.

(** [Insert({keyA, 10}); Insert({keyC, 30}); Remove(keyC); Remove(keyC);
    Remove(keyC)]. *)
Definition mapAC_minusCCC : result map :=
  m <- insertAll (emptyMap N N) [(keyA, 10); (keyC, 30)] ;;
  m <- state (Remove m keyC) ;;
  m <- state (Remove m keyC) ;;
  state (Remove m keyC).

(** A map constructed with capacity 16 into which the keys 5 to 15 were
    inserted: eleven entries, in the slots 5 to 15. *)
Definition elevenKeys : list (kvp N N) :=
  [(5, 50); (6, 60); (7, 70); (8, 80); (9, 90); (10, 100);
   (11, 110); (12, 120); (13, 130); (14, 140); (15, 150)].
Definition mapEleven : result map :=
  m <- new 16 ;; insertAll m elevenKeys.

(** The keys 2 to 12, which start at the slots 2 to 12. *)
Definition keysTwoToTwelve : list (kvp N N) :=
  [(2, 20); (3, 30); (4, 40); (5, 50); (6, 60); (7, 70);
   (8, 80); (9, 90); (10, 100); (11, 110); (12, 120)].
End Scalar.

Module Simd.
Definition Find := Find (Value := N) hash_u64 true 16 16 fuel.
Definition Insert := Insert (Value := N) hash_u64 true 16 16 fuel.
Definition Remove := Remove (Value := N) hash_u64 true 16 16 fuel.

Fixpoint insertAll (m : map) (kvs : list (kvp N N)) : result map :=
  match kvs with
  | [] => Ok m
  | kv :: rest => m' <- state (Insert m kv) ;; insertAll m' rest
  end.

Definition mapAB : result map :=
  insertAll (emptyMap N N) [(keyA, 10); (keyB, 20)].

Definition mapAB_minusA : result map :=
  m <- mapAB ;; state (Remove m keyA).
End Simd.
End U64.

(** ** The data model as predicates *)

Section DataModel.
Context {Key Value : Type}.
Variable kUseSimd : bool.
Variable simdAlignment : N.

(** No control byte is the tombstone sentinel. *)
Definition noTombstone (m : FlatHashMap Key Value) : Prop :=
  Forall (fun c => c <> kTombstone) (m_controlBuffer m).

(** [count / capacity <= 0.7] *)
Definition loadFactorOk (m : FlatHashMap Key Value) : Prop :=
  10 * m_count m <= 7 * m_capacity m.

(** The data model of the map: a capacity that is a multiple of the control
    alignment (and in the range where the load factor is computed exactly),
    null buffers at capacity 0, one slot per unit of capacity, a count that
    is the number of pairs held, and the load-factor bound. *)
Record wellFormed (m : FlatHashMap Key Value) : Prop := {
  wf_capacity : m_capacity m < 2 ^ 53;
  wf_aligned : (kControlAlignment kUseSimd simdAlignment | m_capacity m);
  wf_null : m_capacity m = 0 -> m_controlBuffer m = [];
  wf_slots : length (m_kvpBuffer m) = N.to_nat (m_capacity m);
  wf_count : m_count m = N.of_nat (length (entries m));
  wf_load : loadFactorOk m
}.

(** The buffers [Grow] allocates for an empty map. *)
Definition allocated (capacity : N) : FlatHashMap Key Value :=
  {| m_capacity := capacity;
     m_count := 0;
     m_kvpBuffer := replicate (N.to_nat capacity) None;
     m_controlBuffer :=
       replicate (N.to_nat (capacity + kControlBufferPadding kUseSimd simdAlignment))
         kUnused |}.

(** The map after the slot [it] was claimed with the byte [control]. *)
Definition claimed (m : FlatHashMap Key Value) (it control : N)
    : FlatHashMap Key Value :=
  {| m_capacity := m_capacity m;
     m_count := wrap64 (m_count m + 1);
     m_kvpBuffer := m_kvpBuffer m;
     m_controlBuffer := <[N.to_nat it := control]> (m_controlBuffer m) |}.

(** The pairs held by the [n] slots from slot [it] on. *)
Definition segment (m : FlatHashMap Key Value) (it n : nat) : list (kvp Key Value) :=
  entriesOf (take n (drop it (m_controlBuffer m)))
            (take n (drop it (m_kvpBuffer m))).

End DataModel.

(** ** Preconditions of the further properties *)

Section Preconditions.
Context {Key Value : Type}.
Variable kUseSimd : bool.
Variable batchSize : nat.

(** In the vectorized build, the batch loaded at [probeIndex] lies inside the
    control buffer (and a batch has a lane).  Nothing is asked of the scalar
    build. *)
Definition batchInBounds (m : FlatHashMap Key Value) (probeIndex : N) : Prop :=
  kUseSimd = true ->
  (0 < batchSize)%nat /\
  (N.to_nat probeIndex + batchSize <= length (m_controlBuffer m))%nat.

(** The slot remembered by the stable vectorized loop is available, once
    there is one. *)
Definition rememberedAvailable (m : FlatHashMap Key Value) (firstAvailableIndex : N)
    : Prop :=
  m_capacity m <= firstAvailableIndex \/
  exists c, m_controlBuffer m !! N.to_nat firstAvailableIndex = Some c /\
            isAvailable c = true.

(** The buffers cover the capacity, and a pair was constructed in every
    occupied slot. *)
Definition slotsConstructed (m : FlatHashMap Key Value) : Prop :=
  length (m_kvpBuffer m) = N.to_nat (m_capacity m) /\
  forall i, i < m_capacity m ->
    exists c, m_controlBuffer m !! N.to_nat i = Some c /\
      (isAvailable c = false ->
       exists kv, m_kvpBuffer m !! N.to_nat i = Some (Some kv)).

(** Some slot is empty or a tombstone. *)
Definition hasAvailableSlot (m : FlatHashMap Key Value) : Prop :=
  exists j c, j < m_capacity m /\
    m_controlBuffer m !! N.to_nat j = Some c /\ isAvailable c = true.

(** [slotsConstructed], decided slot by slot. *)
Definition slotConstructedb (m : FlatHashMap Key Value) (i : nat) : bool :=
  match m_controlBuffer m !! i with
  | Some c =>
      isAvailable c
      || match m_kvpBuffer m !! i with
         | Some (Some _) => true
         | _ => false
         end
  | None => false
  end.

Definition slotsConstructedb (m : FlatHashMap Key Value) : bool :=
  (length (m_kvpBuffer m) =? N.to_nat (m_capacity m))%nat
  && forallb (slotConstructedb m) (seq 0 (N.to_nat (m_capacity m))).

End Preconditions.

(** ** Maps at which the further properties are instantiated

    States of the instance of the examples, written out. *)

Module Example.
Import U64.

(** Scalar build, after [Insert({keyA, 10}); Insert({keyB, 20})]. *)
Definition scalarAB : map :=
  {| m_capacity := 32;
     m_count := 2;
     m_kvpBuffer := [Some (keyA, 10); Some (keyB, 20)] ++ replicate 30 None;
     m_controlBuffer := [0; 1] ++ replicate 46 128 |}.

(** [scalarAB] after [Insert({5, 50})]. *)
Definition scalarAB5 : map :=
  {| m_capacity := 32;
     m_count := 3;
     m_kvpBuffer := <[5%nat := Some (5, 50)]> (m_kvpBuffer scalarAB);
     m_controlBuffer := <[5%nat := 0]> (m_controlBuffer scalarAB) |}.

(** [Grow(64)] of [scalarAB]. *)
Definition scalarAB64 : map :=
  {| m_capacity := 64;
     m_count := 2;
     m_kvpBuffer := [Some (keyA, 10); Some (keyB, 20)] ++ replicate 62 None;
     m_controlBuffer := [0; 1] ++ replicate 78 128 |}.

(** [Scalar.tombstoned] after [InsertUnstable({5, 50})]. *)
Definition tombstoned5 : map :=
  {| m_capacity := 32;
     m_count := 2;
     m_kvpBuffer := <[5%nat := Some (5, 50)]> (m_kvpBuffer Scalar.tombstoned);
     m_controlBuffer := <[5%nat := 0]> (m_controlBuffer Scalar.tombstoned) |}.

(** Scalar build, a map constructed with capacity 16. *)
Definition scalarNew16 : map :=
  {| m_capacity := 16;
     m_count := 0;
     m_kvpBuffer := replicate 16 None;
     m_controlBuffer := replicate 32 128 |}.

(** [scalarNew16] after [Insert({5, 50})]. *)
Definition scalar16with5 : map :=
  {| m_capacity := 16;
     m_count := 1;
     m_kvpBuffer := <[5%nat := Some (5, 50)]> (replicate 16 None);
     m_controlBuffer := <[5%nat := 0]> (replicate 32 128) |}.

(** Vectorized build, after [Insert({keyA, 10}); Insert({keyB, 20})]. *)
Definition simdAB : map :=
  {| m_capacity := 32;
     m_count := 2;
     m_kvpBuffer := [Some (keyA, 10); Some (keyB, 20)] ++ replicate 30 None;
     m_controlBuffer := [0; 1] ++ replicate 30 128 |}.

(** Scalar build, after [Insert({keyA, 10}); Insert({keyC, 30});
    Remove(keyC)]: [keyC] was in slot 1, now a tombstone. *)
Definition scalarAC_minusC : map :=
  {| m_capacity := 32;
     m_count := 1;
     m_kvpBuffer := [Some (keyA, 10); Some (keyC, 30)] ++ replicate 30 None;
     m_controlBuffer := [0; 129] ++ replicate 46 128 |}.

(** Scalar build, after [Insert({5, 50})] on a default-constructed map. *)
Definition scalarOnly5 : map :=
  {| m_capacity := 32;
     m_count := 1;
     m_kvpBuffer := <[5%nat := Some (5, 50)]> (replicate 32 None);
     m_controlBuffer := <[5%nat := 0]> (replicate 48 128) |}.

(** Vectorized build, after [Insert({keyB, 20}); Insert({keyA, 10})]. *)
Definition simdBA : map :=
  {| m_capacity := 32;
     m_count := 2;
     m_kvpBuffer := [Some (keyB, 20); Some (keyA, 10)] ++ replicate 30 None;
     m_controlBuffer := [1; 0] ++ replicate 30 128 |}.

(** Scalar build, the state [Scalar.mapEleven] reaches: capacity 16, the
    keys 5 to 15 in the slots 5 to 15. *)
Definition scalarEleven : map :=
  {| m_capacity := 16;
     m_count := 11;
     m_kvpBuffer := replicate 5 None ++ fmap (M := list) Some Scalar.elevenKeys;
     m_controlBuffer := replicate 5 128 ++ replicate 11 0 ++ replicate 16 128 |}.

End Example.

(** * General properties *)

(** ** The result monad *)

Lemma bind_Ok {A B : Type} (r : result A) (f : A -> result B) (b : B) :
  bind r f = Ok b -> exists a, r = Ok a /\ f a = Ok b.
Proof. destruct r as [a|e]; simpl; [eauto | discriminate]. Qed.

Lemma ke_assert_Ok (b : bool) (u : unit) : ke_assert b = Ok u -> b = true.
Proof. destruct b; [reflexivity | discriminate]. Qed.

Ltac inv_bind H :=
  let a := fresh "a" in
  let Ha := fresh "Ha" in
  apply bind_Ok in H; destruct H as (a & Ha & H).

(** Bits *)
Lemma land_flag_small (c : N) : c < 128 -> N.land c kAvailableSlotFlag = 0.
Proof.
  intros Hc. apply N.bits_inj. intros k. rewrite N.land_spec, N.bits_0.
  unfold kAvailableSlotFlag. change 128 with (2 ^ 7).
  rewrite N.pow2_bits_eqb. destruct (N.eqb_spec 7 k) as [<-|_].
  - rewrite andb_true_r. destruct (N.eq_dec c 0) as [->|Hnz]; [reflexivity|].
    apply N.bits_above_log2. apply N.log2_lt_pow2; lia.
  - apply andb_false_r.
Qed.

Lemma shiftr57_small (h : N) : N.shiftr (wrap64 h) 57 mod 256 < 128.
Proof.
  unfold wrap64. rewrite N.shiftr_div_pow2.
  assert (Hh : h mod 2 ^ 64 < 2 ^ 64) by (apply N.mod_lt; lia).
  set (x := h mod 2 ^ 64) in *. clearbody x.
  assert (x / 2 ^ 57 < 128).
  { apply N.Div0.div_lt_upper_bound. change (2 ^ 57 * 128) with (2 ^ 64). lia. }
  rewrite N.mod_small; lia.
Qed.

Lemma lsb_maskOf (p : N -> bool) (batch : list N) :
  maskOf p batch <> 0 ->
  exists c, batch !! N.to_nat (GetLeastSignificantBit (maskOf p batch)) = Some c /\ p c = true.
Proof.
  induction batch as [|c rest IH]; simpl; [congruence|].
  intros Hnz. destruct (p c) eqn:Hpc; simpl N.b2n in *.
  - exists c. split; [|assumption].
    destruct (maskOf p rest) as [|q]; reflexivity.
  - destruct (maskOf p rest) as [|q] eqn:Hrest; [exfalso; apply Hnz; reflexivity|].
    destruct IH as (c' & Hc' & Hp'); [discriminate|].
    exists c'. split; [|assumption].
    change (0 + 2 * N.pos q) with (N.pos q~0). simpl GetLeastSignificantBit in *.
    rewrite N2Nat.inj_succ. exact Hc'.
Qed.

Section Proofs.
Context {Key Value : Type} `{EqDecision Key}.
Variable hash : Key -> N.
Variable kUseSimd : bool.
Variable simdAlignment : N.
Variable batchSize : nat.

Local Abbreviation map := (FlatHashMap Key Value).
Local Abbreviation pair := (kvp Key Value).
Local Abbreviation kControlAlignment := (kControlAlignment kUseSimd simdAlignment).
Local Abbreviation kControlBufferPadding := (kControlBufferPadding kUseSimd simdAlignment).
Local Abbreviation controlOf := (controlOf hash).
Local Abbreviation Grow := (Grow (Value := Value) hash kUseSimd simdAlignment batchSize).
Local Abbreviation probeAndAllocate :=
  (probeAndAllocate (Value := Value) hash kUseSimd simdAlignment batchSize).

Lemma controlOf_small (key : Key) : controlOf key < 128.
Proof. apply shiftr57_small. Qed.

Lemma controlOf_occupied (key : Key) : isAvailable (controlOf key) = false.
Proof.
  unfold isAvailable. rewrite land_flag_small by apply controlOf_small. reflexivity.
Qed.

(** *** Entries *)

Lemma entriesOf_nil_r (controls : list N) :
  entriesOf controls ([] : list (option pair)) = [].
Proof. destruct controls; reflexivity. Qed.

Lemma entriesOf_take (controls : list N) (slots : list (option pair)) :
  entriesOf (take (length slots) controls) slots = entriesOf controls slots.
Proof.
  revert slots. induction controls as [|c controls IH]; intros [|s slots]; simpl; try reflexivity.
  rewrite IH. reflexivity.
Qed.

(** Claiming an available slot adds one pair. *)
Lemma entriesOf_claim (controls : list N) (slots : list (option pair))
    (i : nat) (c control : N) (kv : pair) :
  controls !! i = Some c -> isAvailable c = true -> isAvailable control = false ->
  (i < length slots)%nat ->
  entriesOf (<[i := control]> controls) (<[i := Some kv]> slots)
    ≡ₚ kv :: entriesOf controls slots.
Proof.
  intros Hc Hav Hocc. revert slots i Hc.
  induction controls as [|c0 controls IH]; intros [|s slots] [|i] Hc Hlen;
    simpl in *; try discriminate; try lia.
  - injection Hc as ->. rewrite Hocc, Hav. destruct s; reflexivity.
  - assert (Hrec := IH slots i Hc ltac:(lia)).
    destruct s as [kv0|]; [destruct (isAvailable c0)|]; rewrite Hrec; try reflexivity.
    apply Permutation_swap.
Qed.

(** *** The slot claimed by the fast probe *)

Lemma claimSlot_Ok (m m' : map) (index control : N) (r : iterator * bool) :
  claimSlot m index control = Ok (m', r) ->
  (N.to_nat index < length (m_controlBuffer m))%nat /\
  m' = claimed m index control /\ r = (index, true).
Proof.
  unfold claimSlot, writeControl. intros Hc.
  destruct (N.to_nat index <? length (m_controlBuffer m))%nat eqn:Hlt; [|discriminate].
  apply Nat.ltb_lt in Hlt. simpl in Hc. injection Hc as <- <-. auto.
Qed.

Lemma AllocScalarLoop_fast (n : nat) (m m' : map) key control probeIndex it b :
  AllocScalarLoop n true m key control probeIndex = Ok (m', (it, b)) ->
  b = true /\ m' = claimed m it control /\
  exists c, m_controlBuffer m !! N.to_nat it = Some c /\ isAvailable c = true.
Proof.
  revert probeIndex. induction n as [|n IH]; intros probeIndex Hr; simpl in Hr; [discriminate|].
  inv_bind Hr. simpl in Hr.
  destruct (isAvailable a) eqn:Hav.
  - apply claimSlot_Ok in Hr as (_ & -> & [= -> ->]).
    split; [reflexivity|]. split; [reflexivity|].
    exists a. split; [|assumption].
    unfold readControl in Ha. destruct (m_controlBuffer m !! N.to_nat probeIndex); congruence.
  - eapply IH; eassumption.
Qed.

Lemma loadBatch_lookup (m : map) (probeIndex : N) (lanes : list N) (j : nat) (c : N) :
  loadBatch batchSize m probeIndex = Ok lanes -> lanes !! j = Some c ->
  m_controlBuffer m !! (N.to_nat probeIndex + j)%nat = Some c.
Proof.
  unfold loadBatch. intros Hl Hj.
  destruct (_ =? _)%nat; [|discriminate]. injection Hl as <-.
  apply lookup_take_Some in Hj as [Hj _]. rewrite lookup_drop in Hj. exact Hj.
Qed.

Lemma AllocSimdFastLoop_fast (useSimd : bool) (n : nat) (m m' : map)
    control i probeIndex it b :
  AllocSimdFastLoop useSimd simdAlignment batchSize n m control i probeIndex
    = Ok (m', (it, b)) ->
  b = true /\ m' = claimed m it control /\
  exists c, m_controlBuffer m !! N.to_nat it = Some c /\ isAvailable c = true.
Proof.
  revert i probeIndex. induction n as [|n IH]; intros i probeIndex Hr; simpl in Hr.
  - destruct (negb _); discriminate.
  - destruct (negb (i <? m_capacity m)); [discriminate|].
    inv_bind Hr. rename a into lanes.
    destruct (negb (availableMaskOf lanes =? 0)) eqn:Hmask; simpl in Hr.
    + destruct (_ <? _) eqn:Hguard; [|eapply IH; eassumption].
      apply claimSlot_Ok in Hr as (_ & -> & [= -> ->]).
      split; [reflexivity|]. split; [reflexivity|].
      apply negb_true_iff, N.eqb_neq in Hmask.
      destruct (lsb_maskOf _ _ Hmask) as (c & Hc & Hflag).
      exists c. split.
      * rewrite N2Nat.inj_add. eapply loadBatch_lookup; eassumption.
      * unfold isAvailable. apply N.eqb_eq in Hflag. rewrite Hflag. reflexivity.
    + eapply IH; eassumption.
Qed.

Lemma probeAndAllocate_fast fuel (m m' : map) key it b :
  probeAndAllocate fuel true m key = Ok (m', (it, b)) ->
  b = true /\ m' = claimed m it (controlOf key) /\
  exists c, m_controlBuffer m !! N.to_nat it = Some c /\ isAvailable c = true.
Proof.
  unfold probeAndAllocate. intros Hr.
  inv_bind Hr. inv_bind Hr.
  destruct kUseSimd.
  - eapply AllocSimdFastLoop_fast; eassumption.
  - eapply AllocScalarLoop_fast; eassumption.
Qed.

(** *** Construction *)

Local Abbreviation allocated := (allocated (Key := Key) (Value := Value) kUseSimd simdAlignment).
Local Abbreviation wellFormed := (wellFormed (Key := Key) (Value := Value) kUseSimd simdAlignment).
Local Abbreviation FlatHashMap_new :=
  (FlatHashMap_new (Value := Value) hash kUseSimd simdAlignment batchSize).
Local Abbreviation InsertUnstable :=
  (InsertUnstable (Value := Value) hash kUseSimd simdAlignment batchSize).
Local Abbreviation EmplaceUnstable :=
  (EmplaceUnstable (Value := Value) hash kUseSimd simdAlignment batchSize).
Local Abbreviation DefragmentLoop :=
  (DefragmentLoop (Value := Value) hash kUseSimd simdAlignment batchSize).
Local Abbreviation Defragment :=
  (Defragment (Value := Value) hash kUseSimd simdAlignment batchSize).

Lemma Grow_capacity_zero fuel (m m' : map) (newCapacity : N) :
  m_capacity m = 0 -> Grow fuel m newCapacity = Ok m' ->
  m' = allocated (AlignUp newCapacity kControlAlignment).
Proof.
  intros Hc Hg. destruct fuel as [|fuel]; simpl in Hg; [discriminate|].
  rewrite Hc in Hg. simpl in Hg. injection Hg as <-. reflexivity.
Qed.

Lemma AlignUp_multiple (value alignment : N) :
  0 < alignment -> 0 < value < 2 ^ 53 -> (alignment | value) ->
  AlignUp value alignment = value.
Proof.
  intros Ha Hv [k ->]. unfold AlignUp, wrap64.
  assert (Hk : alignment <= k * alignment).
  { destruct (N.eq_dec k 0) as [->|Hk0]; [lia | clear Hv; nia]. }
  assert (H64 : (2 : N) ^ 64 = 2 ^ 53 * 2048) by reflexivity.
  assert (H53 : 0 < (2 : N) ^ 53) by reflexivity.
  replace (k * alignment + alignment + (2 ^ 64 - 1))
    with ((k * alignment + alignment - 1) + 1 * 2 ^ 64) by lia.
  rewrite N.Div0.mod_add.
  rewrite (N.mod_small (k * alignment + alignment - 1)) by lia.
  replace (k * alignment + alignment - 1) with (alignment - 1 + k * alignment) by lia.
  rewrite N.div_add by lia.
  rewrite (N.div_small (alignment - 1)) by lia.
  rewrite N.add_0_l. apply N.mod_small. lia.
Qed.

Lemma allocated_entries (capacity : N) : entries (allocated capacity) = [].
Proof.
  unfold entries, allocated. simpl.
  generalize (N.to_nat (capacity + kControlBufferPadding)).
  induction (N.to_nat capacity) as [|k IH]; intros [|j]; simpl; auto.
Qed.

Lemma allocated_noTombstone (capacity : N) : noTombstone (allocated capacity).
Proof. apply Forall_replicate. discriminate. Qed.

(** *** An unstable insert that needs no growth *)

Lemma InsertUnstable_no_growth fuel (temp temp' : map) (kv : pair) (it : iterator) :
  m_capacity temp <> 0 -> loadFactorExceeded temp = false ->
  InsertUnstable fuel temp kv = Ok (temp', it) ->
  (exists c, m_controlBuffer temp !! N.to_nat it = Some c /\ isAvailable c = true) /\
  (N.to_nat it < length (m_kvpBuffer temp))%nat /\
  temp' = {| m_capacity := m_capacity temp;
             m_count := wrap64 (m_count temp + 1);
             m_kvpBuffer := <[N.to_nat it := Some kv]> (m_kvpBuffer temp);
             m_controlBuffer :=
               <[N.to_nat it := controlOf kv.1]> (m_controlBuffer temp) |}.
Proof.
  intros Hcap Hload Hins.
  unfold InsertUnstable, InsertUnstableWith, FindAndAllocateSlotWith, growIfNeeded in Hins.
  apply N.eqb_neq in Hcap. rewrite Hcap, Hload in Hins. cbn [bind] in Hins.
  inv_bind Hins. destruct a as [m1 [it1 inserted]].
  apply probeAndAllocate_fast in Ha as (-> & -> & Hslot).
  inv_bind Hins. inv_bind Hins. injection Hins as <- <-.
  unfold constructKvp in Ha0. simpl in Ha0.
  destruct (N.to_nat it1 <? length (m_kvpBuffer temp))%nat eqn:Hlt; [|discriminate].
  apply Nat.ltb_lt in Hlt. injection Ha0 as <-. auto.
Qed.

Lemma InsertUnstable_no_growth_entries fuel (temp temp' : map) (kv : pair) (it : iterator) :
  m_capacity temp <> 0 -> loadFactorExceeded temp = false ->
  InsertUnstable fuel temp kv = Ok (temp', it) ->
  entries temp' ≡ₚ kv :: entries temp /\
  (noTombstone temp -> noTombstone temp') /\
  m_capacity temp' = m_capacity temp /\
  m_count temp' = wrap64 (m_count temp + 1) /\
  length (m_kvpBuffer temp') = length (m_kvpBuffer temp).
Proof.
  intros Hcap Hload Hins.
  destruct (InsertUnstable_no_growth _ _ _ _ _ Hcap Hload Hins)
    as ((c & Hc & Hav) & Hlt & ->).
  unfold entries, noTombstone. simpl. repeat split.
  - eapply entriesOf_claim; eauto using controlOf_occupied.
  - intros Hno. apply Forall_insert; [assumption|].
    pose proof (controlOf_small kv.1). unfold kTombstone. lia.
  - apply length_insert.
Qed.

(** *** [Defragment] *)

Lemma readControl_Ok (m : map) (i c : N) :
  readControl m i = Ok c -> m_controlBuffer m !! N.to_nat i = Some c.
Proof.
  unfold readControl. destruct (m_controlBuffer m !! N.to_nat i); congruence.
Qed.

Lemma readKvp_Ok (m : map) (i : N) (kv : pair) :
  readKvp m i = Ok kv -> m_kvpBuffer m !! N.to_nat i = Some (Some kv).
Proof.
  unfold readKvp. destruct (m_kvpBuffer m !! N.to_nat i) as [[?|]|]; congruence.
Qed.

Lemma segment_skip (m : map) (it n : nat) (c : N) :
  m_controlBuffer m !! it = Some c -> isAvailable c = true ->
  segment m it (S n) = segment m (S it) n.
Proof.
  intros Hc Hav. unfold segment. rewrite (drop_S _ _ _ Hc).
  destruct (m_kvpBuffer m !! it) as [s|] eqn:Hs.
  - rewrite (drop_S _ _ _ Hs). simpl. rewrite Hav. destruct s; reflexivity.
  - apply lookup_ge_None in Hs.
    rewrite (drop_ge (m_kvpBuffer m) it), (drop_ge (m_kvpBuffer m) (S it)) by lia.
    rewrite !take_nil, !entriesOf_nil_r. reflexivity.
Qed.

Lemma segment_keep (m : map) (it n : nat) (c : N) (kv : pair) :
  m_controlBuffer m !! it = Some c -> isAvailable c = false ->
  m_kvpBuffer m !! it = Some (Some kv) ->
  segment m it (S n) = kv :: segment m (S it) n.
Proof.
  intros Hc Hav Hs. unfold segment.
  rewrite (drop_S _ _ _ Hc), (drop_S _ _ _ Hs). simpl. rewrite Hav. reflexivity.
Qed.

Lemma segment_all (m : map) :
  length (m_kvpBuffer m) = N.to_nat (m_capacity m) ->
  segment m 0 (N.to_nat (m_capacity m)) = entries m.
Proof.
  intros Hlen. unfold segment, entries. rewrite !drop_0, <- Hlen.
  rewrite firstn_all. apply entriesOf_take.
Qed.

Lemma DefragmentLoop_spec fuel (m : map) (n it : nat) (temp temp' : map) :
  DefragmentLoop fuel m n (N.of_nat it) temp = Ok temp' ->
  m_capacity temp <> 0 -> m_capacity temp < 2 ^ 53 -> noTombstone temp ->
  10 * (m_count temp + N.of_nat (length (segment m it n))) <= 7 * m_capacity temp ->
  m_capacity temp' = m_capacity temp /\
  noTombstone temp' /\
  entries temp' ≡ₚ segment m it n ++ entries temp /\
  m_count temp' = m_count temp + N.of_nat (length (segment m it n)) /\
  length (m_kvpBuffer temp') = length (m_kvpBuffer temp).
Proof.
  revert it temp. induction n as [|n IH]; intros it temp Hloop Hcap Hrange Hno Hbudget.
  - simpl in Hloop. injection Hloop as <-. unfold segment. simpl.
    rewrite N.add_0_r. auto.
  - simpl in Hloop. inv_bind Hloop. rename a into valid.
    unfold IsValidEntry in Ha. inv_bind Ha. rename a into c.
    injection Ha as <-. apply readControl_Ok in Ha0. rewrite Nat2N.id in Ha0.
    inv_bind Hloop. rename a into temp1.
    replace (N.of_nat it + 1) with (N.of_nat (S it)) in Hloop by lia.
    destruct (N.land c kAvailableSlotFlag =? 0) eqn:Hflag; simpl in Ha.
    + (* an occupied slot *)
      assert (Hav : isAvailable c = false) by (unfold isAvailable; rewrite Hflag; reflexivity).
      inv_bind Ha. rename a into kv. inv_bind Ha. destruct a as [temp2 it2].
      simpl in Ha. injection Ha as ->.
      apply readKvp_Ok in Ha1. rewrite Nat2N.id in Ha1.
      rewrite (segment_keep _ _ _ _ _ Ha0 Hav Ha1) in *. simpl length in Hbudget.
      assert (Hload : loadFactorExceeded temp = false).
      { unfold loadFactorExceeded, wrap64. apply N.ltb_ge.
        rewrite N.mod_small; lia. }
      destruct (InsertUnstable_no_growth_entries _ _ _ _ _ Hcap Hload Ha2)
        as (Hent & Hno1 & Hcap1 & Hcount1 & Hlen1).
      unfold wrap64 in Hcount1. rewrite N.mod_small in Hcount1 by lia.
      destruct (IH _ _ Hloop) as (Hcap' & Hno' & Hent' & Hcount' & Hlen');
        [congruence | congruence | auto | rewrite Hcap1, Hcount1; lia |].
      repeat split; try congruence.
      * rewrite Hent', Hent. simpl. symmetry. apply Permutation_middle.
      * rewrite Hcount', Hcount1. simpl length. lia.
    + (* an available slot *)
      assert (Hav : isAvailable c = true) by (unfold isAvailable; rewrite Hflag; reflexivity).
      injection Ha as ->.
      rewrite (segment_skip _ _ _ _ Ha0 Hav) in *.
      apply (IH _ _ Hloop); assumption.
Qed.

(** On a well-formed map, when [Defragment] completes no control byte is
    the tombstone sentinel, the map holds the same pairs (as many times each)
    and the capacity is what it was. *)
Theorem Defragment_spec fuel (m m' : map) :
  0 < kControlAlignment -> wellFormed m ->
  Defragment fuel m = Ok m' ->
  noTombstone m' /\ entries m' ≡ₚ entries m /\ m_capacity m' = m_capacity m.
Proof.
  intros Halign [Hrange Haligned Hnull Hslots Hcount Hload] Hdefrag.
  unfold Defragment in Hdefrag.
  destruct (m_capacity m =? 0) eqn:Hzero.
  - injection Hdefrag as <-. apply N.eqb_eq in Hzero.
    repeat split; [|reflexivity].
    unfold noTombstone. rewrite (Hnull Hzero). constructor.
  - apply N.eqb_neq in Hzero. inv_bind Hdefrag. rename a into temp.
    unfold FlatHashMap_new, constructWith in Ha.
    destruct (0 <? m_capacity m) eqn:Hpos; [|apply N.ltb_ge in Hpos; lia].
    apply Grow_capacity_zero in Ha; [|reflexivity].
    rewrite AlignUp_multiple in Ha by (assumption || lia). subst temp.
    replace (begin_ m) with (N.of_nat 0) in Hdefrag by reflexivity.
    apply DefragmentLoop_spec in Hdefrag as (Hcap' & Hno' & Hent' & _ & _); simpl.
    + rewrite allocated_entries, app_nil_r, segment_all in Hent' by assumption.
      auto.
    + assumption.
    + assumption.
    + apply allocated_noTombstone.
    + rewrite segment_all by assumption. unfold loadFactorOk in Hload. lia.
Qed.

(** *** The empty map *)

Local Abbreviation Find := (Find (Value := Value) hash kUseSimd simdAlignment batchSize).
Local Abbreviation Remove := (Remove (Value := Value) hash kUseSimd simdAlignment batchSize).
Local Abbreviation FindAndAllocateSlot :=
  (FindAndAllocateSlot (Value := Value) hash kUseSimd simdAlignment batchSize).

Lemma AlignUp_ge (value alignment : N) :
  0 < alignment -> value + alignment <= 2 ^ 64 ->
  value <= AlignUp value alignment.
Proof.
  intros Ha Hv. unfold AlignUp, wrap64.
  replace (value + alignment + (2 ^ 64 - 1))
    with ((value + alignment - 1) + 1 * 2 ^ 64) by lia.
  rewrite N.Div0.mod_add.
  rewrite (N.mod_small (value + alignment - 1)) by lia.
  pose proof (N.div_mod (value + alignment - 1) alignment ltac:(lia)) as Hdm.
  pose proof (N.mod_lt (value + alignment - 1) alignment ltac:(lia)) as Hlt.
  set (q := (value + alignment - 1) / alignment) in *.
  set (r := (value + alignment - 1) mod alignment) in *.
  clearbody q r. rewrite (N.mul_comm alignment q) in Hdm.
  rewrite N.mod_small; lia.
Qed.

(** C10.  On a map of capacity 0, [Find] and [Remove] divide by zero: the
    outcome is not [end()] nor [false].  The insert path first makes the
    capacity at least 32 and takes the remainder by that capacity. *)
Theorem Find_Remove_capacity_zero fuel (m : map) (key : Key) :
  0 < kControlAlignment < 2 ^ 53 ->
  m_capacity m = 0 ->
  Find fuel m key = Fault DivideByZero /\
  Remove fuel m key = Fault DivideByZero /\
  exists m1 : map,
    growIfNeeded (Grow (S fuel)) m = Ok m1 /\
    32 <= m_capacity m1 /\
    forall Fast, FindAndAllocateSlot (S fuel) Fast m key
                 = probeAndAllocate (S fuel) Fast m1 key.
Proof.
  intros Halign Hzero.
  assert (Hfind : Find fuel m key = Fault DivideByZero).
  { unfold Find, umod. rewrite Hzero. reflexivity. }
  split; [exact Hfind|]. split.
  - unfold Remove. fold Find. rewrite Hfind. reflexivity.
  - exists (allocated (AlignUp 32 kControlAlignment)).
    assert (Hgrow : growIfNeeded (Grow (S fuel)) m
                    = Ok (allocated (AlignUp 32 kControlAlignment))).
    { unfold growIfNeeded. rewrite Hzero. cbn [N.eqb Grow]. rewrite Hzero. reflexivity. }
    split; [exact Hgrow|]. split.
    + cbn [allocated m_capacity]. apply AlignUp_ge; [lia|].
      assert ((2 : N) ^ 53 + 32 <= 2 ^ 64) by (vm_compute; discriminate). lia.
    + intros Fast. unfold FindAndAllocateSlot, FindAndAllocateSlotWith.
      rewrite Hgrow. reflexivity.
Qed.

(** *** What the scalar [Find] computes *)

Lemma FindScalarLoop_first_control (n : nat) (m : map) (key : Key)
    (expectedControl control probeIndex c : N) :
  readControl m control = Ok c -> c <> kUnused -> c <> expectedControl ->
  FindScalarLoop n m key expectedControl control probeIndex = Ok (end_ m).
Proof.
  intros Hread Hused Hother. revert probeIndex.
  induction n as [|n IH]; intros probeIndex; simpl; [reflexivity|].
  rewrite Hread. cbn [bind].
  apply N.eqb_neq in Hused, Hother. rewrite Hused, Hother. cbn [bind].
  apply IH.
Qed.

(** In the scalar build, a key whose start slot is occupied by a key of
    another fragment is never found, wherever it is. *)
Lemma Find_scalar_first_control fuel (m : map) (key : Key) (c : N) :
  kUseSimd = false -> m_capacity m <> 0 ->
  m_controlBuffer m !! N.to_nat (hashOf hash key mod m_capacity m) = Some c ->
  c <> kUnused -> c <> controlOf key ->
  Find fuel m key = Ok (end_ m).
Proof.
  intros Hscalar Hcap Hc Hused Hother. unfold Find, umod.
  apply N.eqb_neq in Hcap. rewrite Hcap, Hscalar. cbn [bind negb].
  eapply FindScalarLoop_first_control; [|eassumption..].
  unfold readControl. rewrite Hc. reflexivity.
Qed.

(** *** What [Remove] does to the map *)

Lemma Remove_effect fuel (m m' : map) (key : Key) (removed : bool) :
  Remove fuel m key = Ok (m', removed) ->
  if removed then
    exists it, Find fuel m key = Ok it /\ it <> end_ m /\
      m_capacity m' = m_capacity m /\
      m_count m' = dec64 (m_count m) /\
      m_controlBuffer m' = <[N.to_nat it := kTombstone]> (m_controlBuffer m) /\
      m_kvpBuffer m' = m_kvpBuffer m
  else m' = m.
Proof.
  unfold Remove. intros Hr. inv_bind Hr. rename a into it. fold Find in Ha.
  destruct (it =? end_ m) eqn:Hend; cbn [negb] in Hr.
  - injection Hr as <- <-. reflexivity.
  - inv_bind Hr. injection Hr as <- <-.
    unfold writeControl in Ha0. cbn [m_controlBuffer setCount] in Ha0.
    destruct (_ <? _)%nat; [|discriminate]. injection Ha0 as <-.
    exists it. apply N.eqb_neq in Hend. repeat split; try reflexivity; assumption.
Qed.

(** *** The load factor across an insert *)

Local Abbreviation Insert := (Insert (Value := Value) hash kUseSimd simdAlignment batchSize).
Local Abbreviation loadFactorOk := (loadFactorOk (Key := Key) (Value := Value)).

Lemma claimFirstAvailable_Ok (m m' : map) (index control : N) (r : iterator * bool) :
  claimFirstAvailable m index control = Ok (m', r) ->
  m' = claimed m index control.
Proof.
  unfold claimFirstAvailable. intros Hr. inv_bind Hr.
  apply claimSlot_Ok in Hr as (_ & -> & _). reflexivity.
Qed.

Lemma AllocScalarLoop_state (n : nat) (Fast : bool) (m m' : map) key control probeIndex r :
  AllocScalarLoop n Fast m key control probeIndex = Ok (m', r) ->
  m' = m \/ exists it, m' = claimed m it control.
Proof.
  revert probeIndex. induction n as [|n IH]; intros probeIndex Hr; simpl in Hr; [discriminate|].
  inv_bind Hr. inv_bind Hr. destruct a0.
  - injection Hr as <- _. auto.
  - destruct (isAvailable a).
    + apply claimSlot_Ok in Hr as (_ & -> & _). eauto.
    + eapply IH; eassumption.
Qed.

Lemma AllocSimdStableLoop_state (useSimd : bool) (n fuel : nat) (m m' : map) key
    control firstAvailableIndex i probeIndex r :
  AllocSimdStableLoop useSimd simdAlignment batchSize n fuel m key control
    firstAvailableIndex i probeIndex = Ok (m', r) ->
  m' = m \/ exists it, m' = claimed m it control.
Proof.
  revert firstAvailableIndex i probeIndex.
  induction n as [|n IH]; intros firstAvailableIndex i probeIndex Hr; simpl in Hr.
  - destruct (negb _); discriminate.
  - destruct (negb (i <? m_capacity m)); [discriminate|].
    inv_bind Hr. rename a into lanes.
    destruct (maskOf _ lanes =? 0).
    + destruct (negb _).
      * apply claimFirstAvailable_Ok in Hr. eauto.
      * eapply IH; eassumption.
    + inv_bind Hr. destruct a as [it|].
      * injection Hr as <- _. auto.
      * destruct (negb _).
        -- apply claimFirstAvailable_Ok in Hr. eauto.
        -- eapply IH; eassumption.
Qed.

Lemma probeAndAllocate_state fuel (Fast : bool) (m m' : map) key r :
  probeAndAllocate fuel Fast m key = Ok (m', r) ->
  m_capacity m <> 0 /\ (m' = m \/ exists it, m' = claimed m it (controlOf key)).
Proof.
  unfold probeAndAllocate. intros Hr. inv_bind Hr. inv_bind Hr.
  split.
  { unfold umod in Ha0. destruct (m_capacity m =? 0) eqn:Hz; [discriminate|].
    apply N.eqb_neq. exact Hz. }
  destruct kUseSimd; [destruct Fast|].
  - destruct r as [it b]. apply AllocSimdFastLoop_fast in Hr as (_ & -> & _). eauto.
  - eapply AllocSimdStableLoop_state; eassumption.
  - eapply AllocScalarLoop_state; eassumption.
Qed.

Lemma GrowLoop_spec fuel (m : map) (n : nat) (i : N) (temp temp' : map) :
  GrowLoop (InsertUnstable fuel) m n i temp = Ok temp' ->
  m_capacity temp <> 0 -> m_capacity temp < 2 ^ 60 ->
  10 * (m_count temp + N.of_nat n) <= 7 * m_capacity temp ->
  m_capacity temp' = m_capacity temp /\
  m_count temp' <= m_count temp + N.of_nat n.
Proof.
  revert i temp. induction n as [|n IH]; intros i temp Hloop Hcap Hrange Hbudget.
  - simpl in Hloop. injection Hloop as <-. split; [reflexivity | lia].
  - simpl in Hloop. inv_bind Hloop. rename a into c.
    inv_bind Hloop. rename a into temp1.
    destruct (N.land c kAvailableSlotFlag =? 0).
    + inv_bind Ha0. rename a into kv. inv_bind Ha0. destruct a as [temp2 it2].
      cbn [fst] in Ha0. injection Ha0 as ->.
      assert (Hload : loadFactorExceeded temp = false).
      { unfold loadFactorExceeded, wrap64. apply N.ltb_ge.
        assert ((2 : N) ^ 64 = 16 * 2 ^ 60) by reflexivity.
        rewrite N.mod_small; lia. }
      destruct (InsertUnstable_no_growth_entries _ _ _ _ _ Hcap Hload Ha2)
        as (_ & _ & Hcap1 & Hcount1 & _).
      assert (Hcount1' : m_count temp1 <= m_count temp + 1).
      { rewrite Hcount1. unfold wrap64. apply N.Div0.mod_le. }
      destruct (IH _ _ Hloop) as (Hcap' & Hcount'); [congruence | congruence | lia |].
      split; [congruence | lia].
    + injection Ha0 as ->.
      destruct (IH _ _ Hloop) as (Hcap' & Hcount'); [assumption | assumption | lia |].
      split; [assumption | lia].
Qed.

Lemma Grow_nonempty_spec fuel (m m' : map) (newCapacity : N) :
  0 < kControlAlignment -> m_capacity m <> 0 ->
  0 < newCapacity -> newCapacity + kControlAlignment < 2 ^ 60 ->
  10 * m_count m <= 7 * newCapacity ->
  Grow fuel m newCapacity = Ok m' ->
  newCapacity <= m_capacity m' /\ m_count m' <= m_count m.
Proof.
  intros Halign Hcap Hpos Hrange Hload Hgrow.
  destruct fuel as [|fuel]; simpl in Hgrow; [discriminate|].
  apply N.eqb_neq in Hcap. rewrite Hcap in Hgrow.
  inv_bind Hgrow. rename a into temp.
  unfold constructWith in Ha. apply N.ltb_lt in Hpos. rewrite Hpos in Ha.
  apply N.ltb_lt in Hpos.
  apply Grow_capacity_zero in Ha; [|reflexivity]. subst temp.
  assert (H64 : (2 : N) ^ 64 = 16 * 2 ^ 60) by reflexivity.
  pose proof (AlignUp_ge newCapacity kControlAlignment Halign ltac:(lia)) as Hge.
  assert (Hup : AlignUp newCapacity kControlAlignment < 2 ^ 60).
  { clear Hgrow. unfold AlignUp, wrap64.
    replace (newCapacity + kControlAlignment + (2 ^ 64 - 1))
      with ((newCapacity + kControlAlignment - 1) + 1 * 2 ^ 64) by lia.
    rewrite N.Div0.mod_add.
    rewrite (N.mod_small (newCapacity + kControlAlignment - 1)) by lia.
    eapply N.le_lt_trans; [apply N.Div0.mod_le|]. rewrite N.mul_comm.
    eapply N.le_lt_trans; [apply N.Div0.mul_div_le|]. lia. }
  apply GrowLoop_spec in Hgrow; cbn [allocated m_capacity m_count] in *.
  - rewrite N2Nat.id in Hgrow. destruct Hgrow as [-> Hcount]. split; [assumption | lia].
  - lia.
  - assumption.
  - rewrite N2Nat.id. lia.
Qed.

(** The pre-check leaves room for one more entry. *)
Lemma growIfNeeded_room fuel (m m1 : map) :
  0 < kControlAlignment < 2 ^ 53 -> m_capacity m < 2 ^ 53 -> loadFactorOk m ->
  growIfNeeded (Grow fuel) m = Ok m1 ->
  10 * (m_count m1 + 1) <= 7 * m_capacity m1.
Proof.
  intros Halign Hrange Hload Hgrow. unfold loadFactorOk in Hload.
  unfold growIfNeeded in Hgrow.
  assert (H53 : (2 : N) ^ 60 = 128 * 2 ^ 53) by reflexivity.
  assert (H64 : (2 : N) ^ 64 = 16 * 2 ^ 60) by reflexivity.
  assert (Hp : 0 < (2 : N) ^ 53) by reflexivity.
  destruct (m_capacity m =? 0) eqn:Hzero.
  - apply Grow_capacity_zero in Hgrow; [|apply N.eqb_eq; assumption]. subst m1.
    cbn [allocated m_capacity m_count].
    pose proof (AlignUp_ge 32 kControlAlignment ltac:(lia) ltac:(lia)). lia.
  - apply N.eqb_neq in Hzero.
    destruct (loadFactorExceeded m) eqn:Hex.
    + unfold wrap64 in Hgrow. rewrite N.mod_small in Hgrow by lia.
      apply Grow_nonempty_spec in Hgrow; [|lia..].
      destruct Hgrow as [Hcap1 Hcount1].
      destruct (N.eq_dec (m_capacity m) 1) as [Hone|Hmore]; lia.
    + injection Hgrow as <-. unfold loadFactorExceeded, wrap64 in Hex.
      apply N.ltb_ge in Hex. rewrite N.mod_small in Hex; lia.
Qed.

(** From a state within the load-factor bound, a stable insert that
    completes ends within the bound, on a capacity that is not 0. *)
Lemma Insert_keeps_load_factor fuel (m m' : map) (kv : pair) (r : iterator * bool) :
  0 < kControlAlignment < 2 ^ 53 -> m_capacity m < 2 ^ 53 -> loadFactorOk m ->
  Insert fuel m kv = Ok (m', r) ->
  loadFactorOk m' /\ 0 < m_capacity m'.
Proof.
  intros Halign Hrange Hload Hins.
  unfold Insert, FindAndAllocateSlot, FindAndAllocateSlotWith in Hins.
  inv_bind Hins. destruct a as [m2 [it inserted]].
  inv_bind Ha. rename a into m1.
  pose proof (growIfNeeded_room _ _ _ Halign Hrange Hload Ha0) as Hroom.
  apply probeAndAllocate_state in Ha as [Hcap1 Hstate].
  assert (Hm2 : loadFactorOk m2 /\ 0 < m_capacity m2).
  { unfold loadFactorOk.
    destruct Hstate as [->|[it' ->]]; cbn [claimed m_capacity m_count].
    - lia.
    - pose proof (N.Div0.mod_le (m_count m1 + 1) (2 ^ 64)) as Hle.
      unfold wrap64. lia. }
  inv_bind Hins. destruct inserted.
  - inv_bind Hins. injection Hins as <- _.
    unfold constructKvp in Ha1. destruct (_ <? _)%nat; [|discriminate].
    injection Ha1 as <-. exact Hm2.
  - injection Hins as <- _. exact Hm2.
Qed.

End Proofs.

(** * Further properties of the operations *)

(** ** Parity of masks *)

Lemma lsb_odd (x : N) : N.odd x = true -> GetLeastSignificantBit x = 0 /\ x <> 0.
Proof.
  destruct x as [|[p|p|]]; simpl; intros Hodd; try discriminate;
    (split; [reflexivity | discriminate]).
Qed.

Lemma maskOf_odd (p : N -> bool) (c : N) (rest : list N) :
  N.odd (maskOf p (c :: rest)) = p c.
Proof.
  cbn [maskOf]. rewrite N.odd_add_mul_2. destruct (p c); reflexivity.
Qed.

Lemma wrap64_odd (x : N) : N.odd (wrap64 x) = N.odd x.
Proof.
  unfold wrap64. rewrite <- !N.bit0_odd. apply N.mod_pow2_bits_low. reflexivity.
Qed.

Lemma land_odd (a b : N) : N.odd (N.land a b) = N.odd a && N.odd b.
Proof. rewrite <- !N.bit0_odd. apply N.land_spec. Qed.

Lemma BitMask_0 : BitMask 0 = 0.
Proof. reflexivity. Qed.

Lemma BitMask_succ_odd (n : N) : N.odd (BitMask (N.succ n)) = true.
Proof.
  unfold BitMask. rewrite wrap64_odd, N.pow_succ_r'.
  assert (Hpos : 2 ^ n <> 0) by (apply N.pow_nonzero; discriminate).
  replace (2 * 2 ^ n - 1) with (1 + 2 * (2 ^ n - 1)) by lia.
  rewrite N.odd_add_mul_2. reflexivity.
Qed.

(** The lanes before the first empty one include lane 0 when lane 0 is not
    empty. *)
Lemma lanesBeforeUnused_odd (c : N) (rest : list N) :
  c <> kUnused ->
  N.odd (lanesBeforeUnused (maskOf (fun c => c =? kUnused) (c :: rest))) = true.
Proof.
  intros Hc. unfold lanesBeforeUnused. cbn [maskOf].
  apply N.eqb_neq in Hc. rewrite Hc. cbn [N.b2n].
  destruct (maskOf (fun c0 => c0 =? kUnused) rest) as [|q]; [reflexivity|].
  change (0 + 2 * N.pos q) with (N.pos q~0).
  cbn [N.eqb GetLeastSignificantBit lsb_pos]. apply BitMask_succ_odd.
Qed.

(** ** The lowest set bit, read off the bits of a mask *)

Lemma lsb_at_1 (x : N) :
  N.testbit x 0 = false -> N.testbit x 1 = true ->
  GetLeastSignificantBit x = 1 /\ x <> 0.
Proof.
  destruct x as [|[p|[p|p|]|]]; cbn; intros H0 H1; try discriminate;
    (split; [reflexivity | discriminate]).
Qed.

Lemma lsb_at_2 (x : N) :
  N.testbit x 0 = false -> N.testbit x 1 = false -> N.testbit x 2 = true ->
  GetLeastSignificantBit x = 2 /\ x <> 0.
Proof.
  destruct x as [|[p|[p|[p|p|]|]|]]; cbn; intros H0 H1 H2; try discriminate;
    (split; [reflexivity | discriminate]).
Qed.

Lemma maskOf_bit0 (p : N -> bool) (c : N) (rest : list N) :
  N.testbit (maskOf p (c :: rest)) 0 = p c.
Proof.
  cbn [maskOf]. rewrite N.bit0_odd, N.odd_add_mul_2. destruct (p c); reflexivity.
Qed.

Lemma maskOf_bit1 (p : N -> bool) (c0 c1 : N) (rest : list N) :
  N.testbit (maskOf p (c0 :: c1 :: rest)) 1 = p c1.
Proof.
  change (maskOf p (c0 :: c1 :: rest)) with (N.b2n (p c0) + 2 * maskOf p (c1 :: rest)).
  rewrite N.add_comm. change 1 with (N.succ 0) at 1.
  rewrite N.testbit_succ_r. apply maskOf_bit0.
Qed.

Lemma wrap64_bits_low (x n : N) : n < 64 -> N.testbit (wrap64 x) n = N.testbit x n.
Proof. intros Hn. unfold wrap64. apply N.mod_pow2_bits_low. exact Hn. Qed.

Lemma BitMask_bits_low (k n : N) : n < k -> n < 64 -> N.testbit (BitMask k) n = true.
Proof.
  intros Hk Hn. unfold BitMask. rewrite wrap64_bits_low by exact Hn.
  rewrite <- N.pred_sub, <- N.ones_equiv. apply N.ones_spec_low. exact Hk.
Qed.

(** The lanes before the first empty one include the lanes 0 and 1 when
    neither is empty. *)
Lemma lanesBeforeUnused_bit1 (c0 c1 : N) (rest : list N) :
  c0 <> kUnused -> c1 <> kUnused ->
  N.testbit (lanesBeforeUnused (maskOf (fun c => c =? kUnused) (c0 :: c1 :: rest))) 1
  = true.
Proof.
  intros H0 H1. unfold lanesBeforeUnused. cbn [maskOf].
  apply N.eqb_neq in H0, H1. rewrite H0, H1. cbn [N.b2n].
  destruct (maskOf (fun c => c =? kUnused) rest) as [|q]; [reflexivity|].
  change (0 + 2 * (0 + 2 * N.pos q)) with (N.pos q~0~0).
  cbn [N.eqb GetLeastSignificantBit lsb_pos].
  apply BitMask_bits_low; [|reflexivity]. lia.
Qed.

(** [matchMask <<= 1] of a mask whose lowest set bit is bit 1. *)
Lemma shiftl1_bits (x : N) :
  N.testbit x 0 = false -> N.testbit x 1 = true ->
  N.testbit (wrap64 (N.shiftl x 1)) 0 = false /\
  N.testbit (wrap64 (N.shiftl x 1)) 1 = false /\
  N.testbit (wrap64 (N.shiftl x 1)) 2 = true.
Proof.
  intros H0 H1. rewrite !wrap64_bits_low by reflexivity.
  rewrite N.shiftl_spec_low by reflexivity.
  rewrite (N.shiftl_spec_high' x 1 1), (N.shiftl_spec_high' x 1 2) by lia.
  change (1 - 1) with 0. change (2 - 1) with 1. auto.
Qed.

Section MoreProofs.
Context {Key Value : Type} `{EqDecision Key}.
Variable hash : Key -> N.
Variable kUseSimd : bool.
Variable simdAlignment : N.
Variable batchSize : nat.

Local Abbreviation map := (FlatHashMap Key Value).
Local Abbreviation pair := (kvp Key Value).
Local Abbreviation kControlAlignment := (kControlAlignment kUseSimd simdAlignment).
Local Abbreviation controlOf := (controlOf hash).
Local Abbreviation hashOf := (hashOf hash).
Local Abbreviation Grow := (Grow (Value := Value) hash kUseSimd simdAlignment batchSize).
Local Abbreviation Find := (Find (Value := Value) hash kUseSimd simdAlignment batchSize).
Local Abbreviation Remove := (Remove (Value := Value) hash kUseSimd simdAlignment batchSize).
Local Abbreviation Insert := (Insert (Value := Value) hash kUseSimd simdAlignment batchSize).
Local Abbreviation InsertUnstable :=
  (InsertUnstable (Value := Value) hash kUseSimd simdAlignment batchSize).
Local Abbreviation FlatHashMap_new :=
  (FlatHashMap_new (Value := Value) hash kUseSimd simdAlignment batchSize).
Local Abbreviation probeAndAllocate :=
  (probeAndAllocate (Value := Value) hash kUseSimd simdAlignment batchSize).
Local Abbreviation allocated := (allocated (Key := Key) (Value := Value) kUseSimd simdAlignment).

(** The start index of a key. *)
Local Abbreviation startOf m key := (hashOf key mod m_capacity m).

(** *** What [Find] returns *)

Lemma keyEquals_true (m : map) (i : N) (key : Key) :
  keyEquals m i key = Ok true ->
  exists kv : pair, m_kvpBuffer m !! N.to_nat i = Some (Some kv) /\ kv.1 = key.
Proof.
  unfold keyEquals. intros Hk. inv_bind Hk. apply readKvp_Ok in Ha.
  injection Hk as Hk. apply bool_decide_eq_true in Hk. eauto.
Qed.

Lemma keyEquals_lookup (m : map) (i : N) (kv : pair) (key : Key) :
  m_kvpBuffer m !! N.to_nat i = Some (Some kv) ->
  keyEquals m i key = Ok (bool_decide (kv.1 = key)).
Proof. unfold keyEquals, readKvp. intros ->. reflexivity. Qed.

Lemma FindScalarLoop_sound (n : nat) (m : map) (key : Key)
    (expectedControl control probeIndex it : N) :
  FindScalarLoop n m key expectedControl control probeIndex = Ok it ->
  it = end_ m \/ keyEquals m it key = Ok true.
Proof.
  revert probeIndex. induction n as [|n IH]; intros probeIndex Hf; simpl in Hf.
  - injection Hf as <-. auto.
  - inv_bind Hf. destruct (a =? kUnused); [injection Hf as <-; auto|].
    inv_bind Hf. destruct a0.
    + injection Hf as <-. right.
      destruct (a =? expectedControl); [assumption | discriminate].
    + eapply IH; eassumption.
Qed.

Lemma MatchLoop_sound (fuel : nat) (m : map) (key : Key)
    (probeIndex matchMask offset it : N) :
  MatchLoop fuel m key probeIndex matchMask offset = Ok (Some it) ->
  keyEquals m it key = Ok true.
Proof.
  revert matchMask offset. induction fuel as [|fuel IH]; intros matchMask offset Hm;
    simpl in Hm; destruct (matchMask =? 0); try discriminate.
  inv_bind Hm. destruct a.
  - injection Hm as <-. assumption.
  - eapply IH; eassumption.
Qed.

Lemma FindSimdLoop_sound (useSimd : bool) (n fuel : nat) (m : map) (key : Key)
    (expectedControl i probeIndex it : N) :
  FindSimdLoop useSimd simdAlignment batchSize n fuel m key expectedControl i probeIndex
    = Ok it ->
  it = end_ m \/ keyEquals m it key = Ok true.
Proof.
  revert i probeIndex. induction n as [|n IH]; intros i probeIndex Hf; simpl in Hf.
  - destruct (negb _); [injection Hf as <-; auto | discriminate].
  - destruct (negb (i <? m_capacity m)); [injection Hf as <-; auto|].
    inv_bind Hf. rename a into lanes.
    destruct (maskOf _ lanes =? 0).
    + destruct (negb _); [injection Hf as <-; auto | eapply IH; eassumption].
    + inv_bind Hf. destruct a as [found|].
      * injection Hf as <-. right. eapply MatchLoop_sound; eassumption.
      * destruct (negb _); [injection Hf as <-; auto | eapply IH; eassumption].
Qed.

(** A slot that [Find] returns, if it is not [end()], holds the key that was
    looked up: in both builds [Find] never returns the slot of another
    key. *)
Theorem Find_sound fuel (m : map) (key : Key) (it : iterator) :
  Find fuel m key = Ok it -> it <> end_ m ->
  exists kv : pair, m_kvpBuffer m !! N.to_nat it = Some (Some kv) /\ kv.1 = key.
Proof.
  unfold Find. intros Hf Hend. inv_bind Hf.
  apply keyEquals_true.
  destruct kUseSimd; cbn [negb] in Hf.
  - apply FindSimdLoop_sound in Hf as [?|?]; [contradiction | assumption].
  - apply FindScalarLoop_sound in Hf as [?|?]; [contradiction | assumption].
Qed.

(** *** The first probe step *)

Local Abbreviation batchInBounds := (batchInBounds (Key := Key) (Value := Value) kUseSimd batchSize).

Lemma loadBatch_first (m : map) (probeIndex c : N) :
  (0 < batchSize)%nat ->
  (N.to_nat probeIndex + batchSize <= length (m_controlBuffer m))%nat ->
  m_controlBuffer m !! N.to_nat probeIndex = Some c ->
  exists rest, loadBatch batchSize m probeIndex = Ok (c :: rest).
Proof.
  intros Hpos Hin Hc. unfold loadBatch.
  rewrite (drop_S _ _ _ Hc).
  destruct batchSize as [|w] eqn:Hw; [lia|].
  cbn [take]. exists (take w (drop (S (N.to_nat probeIndex)) (m_controlBuffer m))).
  cbn [length]. rewrite length_take, length_drop.
  replace (S (w `min` (length (m_controlBuffer m) - S (N.to_nat probeIndex))) =? S w)%nat
    with true; [reflexivity|].
  symmetry. apply Nat.eqb_eq. lia.
Qed.

Lemma MatchLoop_zero (fuel : nat) (m : map) (key : Key) (probeIndex offset : N) :
  MatchLoop fuel m key probeIndex 0 offset = Ok None.
Proof. destruct fuel; reflexivity. Qed.

Lemma FindSimdLoop_first_empty (useSimd : bool) (n fuel : nat) (m : map) (key : Key)
    (expectedControl probeIndex : N) (rest : list N) :
  m_capacity m <> 0 ->
  loadBatch batchSize m probeIndex = Ok (kUnused :: rest) ->
  FindSimdLoop useSimd simdAlignment batchSize (S n) fuel m key expectedControl 0 probeIndex
    = Ok (end_ m).
Proof.
  intros Hcap Hload. cbn [FindSimdLoop].
  assert (Hlt : (0 <? m_capacity m) = true) by (apply N.ltb_lt; lia).
  rewrite Hlt, Hload. cbn [negb bind].
  pose proof (maskOf_odd (fun c => c =? kUnused) kUnused rest) as Hodd.
  cbn beta in Hodd. rewrite N.eqb_refl in Hodd.
  apply lsb_odd in Hodd as [Hlsb Hnz].
  unfold lanesBeforeUnused. apply N.eqb_neq in Hnz. rewrite Hnz, Hlsb, BitMask_0.
  rewrite N.land_0_r, MatchLoop_zero. cbn [negb bind].
  match goal with |- (if ?b then _ else _) = _ => destruct b end; reflexivity.
Qed.

Lemma FindSimdLoop_first_hit (useSimd : bool) (n fuel : nat) (m : map) (key : Key)
    (expectedControl probeIndex : N) (rest : list N) :
  m_capacity m <> 0 -> expectedControl <> kUnused ->
  loadBatch batchSize m probeIndex = Ok (expectedControl :: rest) ->
  keyEquals m probeIndex key = Ok true ->
  FindSimdLoop useSimd simdAlignment batchSize (S n) (S fuel) m key expectedControl 0
    probeIndex = Ok probeIndex.
Proof.
  intros Hcap Hused Hload Hkey. cbn [FindSimdLoop].
  assert (Hlt : (0 <? m_capacity m) = true) by (apply N.ltb_lt; lia).
  rewrite Hlt, Hload. cbn [negb bind].
  pose proof (maskOf_odd (fun c => c =? expectedControl) expectedControl rest) as Hexp.
  cbn beta in Hexp. rewrite N.eqb_refl in Hexp.
  pose proof (lanesBeforeUnused_odd expectedControl rest Hused) as Hbefore.
  set (expectedMask := maskOf (fun c => c =? expectedControl) (expectedControl :: rest)) in *.
  set (before := lanesBeforeUnused _) in *.
  assert (Hmatch : N.odd (N.land expectedMask before) = true)
    by (rewrite land_odd, Hexp, Hbefore; reflexivity).
  destruct (lsb_odd _ Hexp) as [_ Hexpnz]. apply N.eqb_neq in Hexpnz. rewrite Hexpnz.
  destruct (lsb_odd _ Hmatch) as [Hlsb Hnz]. apply N.eqb_neq in Hnz.
  cbn [MatchLoop]. rewrite Hnz, Hlsb.
  change (wrap64 (0 + 0)) with 0. rewrite N.add_0_r, Hkey. reflexivity.
Qed.

Lemma MatchLoop_diverges (m : map) (key : Key) (probeIndex : N) :
  keyEquals m probeIndex key = Ok false ->
  forall (fuel : nat) (matchMask : N),
    N.odd matchMask = true ->
    MatchLoop fuel m key probeIndex matchMask 0 = Fault OutOfFuel.
Proof.
  intros Hkey. induction fuel as [|fuel IH]; intros matchMask Hodd;
    destruct (lsb_odd _ Hodd) as [Hlsb Hnz]; apply N.eqb_neq in Hnz;
    cbn [MatchLoop]; rewrite Hnz; [reflexivity|].
  rewrite Hlsb. change (wrap64 (0 + 0)) with 0.
  rewrite N.add_0_r, Hkey. cbn [bind]. apply IH.
  rewrite wrap64_odd, N.shiftl_0_r. exact Hodd.
Qed.

Lemma FindSimdLoop_first_diverges (useSimd : bool) (n fuel : nat) (m : map) (key : Key)
    (expectedControl probeIndex : N) (rest : list N) :
  m_capacity m <> 0 -> expectedControl <> kUnused ->
  loadBatch batchSize m probeIndex = Ok (expectedControl :: rest) ->
  keyEquals m probeIndex key = Ok false ->
  FindSimdLoop useSimd simdAlignment batchSize (S n) fuel m key expectedControl 0
    probeIndex = Fault OutOfFuel.
Proof.
  intros Hcap Hused Hload Hkey. cbn [FindSimdLoop].
  assert (Hlt : (0 <? m_capacity m) = true) by (apply N.ltb_lt; lia).
  rewrite Hlt, Hload. cbn [negb bind].
  pose proof (maskOf_odd (fun c => c =? expectedControl) expectedControl rest) as Hexp.
  cbn beta in Hexp. rewrite N.eqb_refl in Hexp.
  pose proof (lanesBeforeUnused_odd expectedControl rest Hused) as Hbefore.
  set (expectedMask := maskOf (fun c => c =? expectedControl) (expectedControl :: rest)) in *.
  set (before := lanesBeforeUnused _) in *.
  assert (Hmatch : N.odd (N.land expectedMask before) = true)
    by (rewrite land_odd, Hexp, Hbefore; reflexivity).
  destruct (lsb_odd _ Hexp) as [_ Hexpnz]. apply N.eqb_neq in Hexpnz. rewrite Hexpnz.
  rewrite (MatchLoop_diverges _ _ _ Hkey fuel _ Hmatch). reflexivity.
Qed.

Lemma controlOf_used (key : Key) : controlOf key <> kUnused.
Proof. pose proof (controlOf_small hash key). unfold kUnused. lia. Qed.

Lemma capacity_to_nat (m : map) :
  m_capacity m <> 0 -> exists n, N.to_nat (m_capacity m) = S n.
Proof. intros Hcap. exists (Nat.pred (N.to_nat (m_capacity m))). lia. Qed.

(** A key whose start slot was never used is a miss, in both builds. *)
Theorem Find_empty_start fuel (m : map) (key : Key) :
  m_capacity m <> 0 ->
  m_controlBuffer m !! N.to_nat (startOf m key) = Some kUnused ->
  batchInBounds m (startOf m key) ->
  Find fuel m key = Ok (end_ m).
Proof.
  intros Hcap Hslot Hin. unfold Find, umod.
  destruct (capacity_to_nat m Hcap) as [n Hn].
  apply N.eqb_neq in Hcap. rewrite Hcap, Hn. apply N.eqb_neq in Hcap. cbn [bind].
  destruct kUseSimd eqn:Hsimd; cbn [negb].
  - destruct (Hin eq_refl) as [Hpos Hbound].
    destruct (loadBatch_first _ _ _ Hpos Hbound Hslot) as [rest Hload].
    eapply FindSimdLoop_first_empty; eassumption.
  - cbn [FindScalarLoop]. unfold readControl. rewrite Hslot. reflexivity.
Qed.

(** A key that sits in its start slot, under its fragment, is found there,
    in both builds. *)
Theorem Find_start_slot_hit fuel (m : map) (key : Key) (kv : pair) :
  m_capacity m <> 0 ->
  m_controlBuffer m !! N.to_nat (startOf m key) = Some (controlOf key) ->
  m_kvpBuffer m !! N.to_nat (startOf m key) = Some (Some kv) ->
  kv.1 = key ->
  batchInBounds m (startOf m key) ->
  Find (S fuel) m key = Ok (startOf m key).
Proof.
  intros Hcap Hslot Hpair Hkey Hin.
  assert (Heq : keyEquals m (startOf m key) key = Ok true).
  { rewrite (keyEquals_lookup _ _ _ _ Hpair). rewrite bool_decide_eq_true_2; auto. }
  pose proof (controlOf_used key) as Hused.
  unfold Find, umod.
  destruct (capacity_to_nat m Hcap) as [n Hn].
  apply N.eqb_neq in Hcap. rewrite Hcap, Hn. apply N.eqb_neq in Hcap. cbn [bind].
  destruct kUseSimd eqn:Hsimd; cbn [negb].
  - destruct (Hin eq_refl) as [Hpos Hbound].
    destruct (loadBatch_first _ _ _ Hpos Hbound Hslot) as [rest Hload].
    eapply FindSimdLoop_first_hit; eassumption.
  - cbn [FindScalarLoop]. unfold readControl. rewrite Hslot. cbn [bind].
    apply N.eqb_neq in Hused. fold (controlOf key). rewrite Hused, N.eqb_refl, Heq.
    reflexivity.
Qed.

(** In the vectorized build, looking up a key whose start slot holds
    another key under the same fragment does not terminate: the inner loop
    shifts its mask by the index of its lowest bit, which is 0. *)
Theorem Find_simd_diverges (m : map) (key : Key) (kv : pair) :
  kUseSimd = true ->
  m_capacity m <> 0 ->
  m_controlBuffer m !! N.to_nat (startOf m key) = Some (controlOf key) ->
  m_kvpBuffer m !! N.to_nat (startOf m key) = Some (Some kv) ->
  kv.1 <> key ->
  batchInBounds m (startOf m key) ->
  forall fuel, Find fuel m key = Fault OutOfFuel.
Proof.
  intros Hsimd Hcap Hslot Hpair Hkey Hin fuel.
  assert (Heq : keyEquals m (startOf m key) key = Ok false).
  { rewrite (keyEquals_lookup _ _ _ _ Hpair). rewrite bool_decide_eq_false_2; auto. }
  pose proof (controlOf_used key) as Hused.
  destruct (Hin Hsimd) as [Hpos Hbound].
  destruct (loadBatch_first _ _ _ Hpos Hbound Hslot) as [rest Hload].
  unfold Find, umod.
  destruct (capacity_to_nat m Hcap) as [n Hn].
  apply N.eqb_neq in Hcap. rewrite Hcap, Hn, Hsimd. apply N.eqb_neq in Hcap.
  cbn [bind negb].
  eapply FindSimdLoop_first_diverges; eassumption.
Qed.

(** *** What an insert does to the map *)

(** An unstable insert that needs no growth never overwrites a pair: the
    slot it returns was available, it now holds the new pair, and the map
    holds the pairs it held plus that one. *)
Theorem InsertUnstable_adds_pair fuel (m m' : map) (kv : pair) (it : iterator) :
  m_capacity m <> 0 -> loadFactorExceeded m = false ->
  InsertUnstable fuel m kv = Ok (m', it) ->
  (exists c, m_controlBuffer m !! N.to_nat it = Some c /\ isAvailable c = true) /\
  m_kvpBuffer m' !! N.to_nat it = Some (Some kv) /\
  entries m' ≡ₚ kv :: entries m /\
  m_capacity m' = m_capacity m /\
  m_count m' = wrap64 (m_count m + 1).
Proof.
  intros Hcap Hload Hins.
  destruct (InsertUnstable_no_growth hash _ _ _ _ _ _ _ _ Hcap Hload Hins)
    as (Hslot & Hlt & Hm').
  destruct (InsertUnstable_no_growth_entries hash _ _ _ _ _ _ _ _ Hcap Hload Hins)
    as (Hent & _ & Hcap' & Hcount' & _).
  split; [exact Hslot|]. split; [|auto].
  subst m'. cbn [m_kvpBuffer]. apply list_lookup_insert_eq. exact Hlt.
Qed.

Local Abbreviation rememberedAvailable := (rememberedAvailable (Key := Key) (Value := Value)).

Lemma AllocScalarLoop_outcome (n : nat) (m m' : map) (key : Key)
    (control probeIndex it : N) (inserted : bool) :
  AllocScalarLoop n false m key control probeIndex = Ok (m', (it, inserted)) ->
  if inserted then
    m' = claimed m it control /\
    exists c, m_controlBuffer m !! N.to_nat it = Some c /\ isAvailable c = true
  else m' = m /\ keyEquals m it key = Ok true.
Proof.
  revert probeIndex. induction n as [|n IH]; intros probeIndex Hr; simpl in Hr; [discriminate|].
  inv_bind Hr. rename a into c. apply readControl_Ok in Ha.
  inv_bind Hr. destruct a.
  - injection Hr as <- <- <-. split; [reflexivity|].
    destruct (c =? control); [assumption | discriminate].
  - destruct (isAvailable c) eqn:Hav.
    + apply claimSlot_Ok in Hr as (_ & -> & [= -> ->]). eauto.
    + eapply IH; eassumption.
Qed.

Lemma claimFirstAvailable_outcome (m m' : map) (firstAvailableIndex control it : N)
    (inserted : bool) :
  rememberedAvailable m firstAvailableIndex ->
  claimFirstAvailable m firstAvailableIndex control = Ok (m', (it, inserted)) ->
  inserted = true /\ m' = claimed m it control /\
  exists c, m_controlBuffer m !! N.to_nat it = Some c /\ isAvailable c = true.
Proof.
  intros Hrem Hr. unfold claimFirstAvailable in Hr. inv_bind Hr.
  apply ke_assert_Ok, N.ltb_lt in Ha.
  apply claimSlot_Ok in Hr as (_ & -> & [= -> ->]).
  destruct Hrem as [Hge|Hslot]; [lia | auto].
Qed.

Lemma AllocSimdStableLoop_outcome (useSimd : bool) (n fuel : nat) (m m' : map) (key : Key)
    (control firstAvailableIndex i probeIndex it : N) (inserted : bool) :
  N.of_nat (length (m_controlBuffer m)) <= 2 ^ 64 ->
  rememberedAvailable m firstAvailableIndex ->
  AllocSimdStableLoop useSimd simdAlignment batchSize n fuel m key control
    firstAvailableIndex i probeIndex = Ok (m', (it, inserted)) ->
  if inserted then
    m' = claimed m it control /\
    exists c, m_controlBuffer m !! N.to_nat it = Some c /\ isAvailable c = true
  else m' = m /\ keyEquals m it key = Ok true.
Proof.
  intros Hlen. revert firstAvailableIndex i probeIndex.
  induction n as [|n IH]; intros firstAvailableIndex i probeIndex Hrem Hr; simpl in Hr.
  - destruct (negb _); discriminate.
  - destruct (negb (i <? m_capacity m)); [discriminate|].
    inv_bind Hr. rename a into lanes.
    match type of Hr with context [AllocSimdStableLoop _ _ _ n fuel m key control ?fa _ _] =>
      assert (Hrem' : rememberedAvailable m fa)
    end.
    { destruct (m_capacity m <=? firstAvailableIndex); [|exact Hrem].
      destruct (negb (availableMaskOf lanes =? 0)) eqn:Hmask; [|exact Hrem].
      apply negb_true_iff, N.eqb_neq in Hmask.
      destruct (lsb_maskOf _ _ Hmask) as (c & Hc & Hflag).
      pose proof (loadBatch_lookup _ _ _ _ _ _ Ha Hc) as Hslot.
      pose proof (lookup_lt_Some _ _ _ Hslot) as Hlt.
      right. exists c. split.
      - unfold wrap64. fold (availableMaskOf lanes) in Hlt.
        rewrite N.mod_small by lia. rewrite N2Nat.inj_add. exact Hslot.
      - unfold isAvailable. apply N.eqb_eq in Hflag. rewrite Hflag. reflexivity. }
    destruct (maskOf (fun c => c =? control) lanes =? 0).
    + destruct (negb _).
      * apply claimFirstAvailable_outcome in Hr as (-> & -> & Hslot); auto.
      * eapply IH; eassumption.
    + inv_bind Hr. destruct a as [found|].
      * injection Hr as <- <- <-. split; [reflexivity|].
        eapply MatchLoop_sound; eassumption.
      * destruct (negb _).
        -- apply claimFirstAvailable_outcome in Hr as (-> & -> & Hslot); auto.
        -- eapply IH; eassumption.
Qed.

Lemma Insert_no_growth_shape fuel (m m' : map) (kv : pair) (it : iterator)
    (inserted : bool) :
  (kUseSimd = true -> N.of_nat (length (m_controlBuffer m)) <= 2 ^ 64) ->
  m_capacity m <> 0 -> loadFactorExceeded m = false ->
  Insert fuel m kv = Ok (m', (it, inserted)) ->
  if inserted then
    (exists c, m_controlBuffer m !! N.to_nat it = Some c /\ isAvailable c = true) /\
    (N.to_nat it < length (m_kvpBuffer m))%nat /\
    m' = {| m_capacity := m_capacity m;
            m_count := wrap64 (m_count m + 1);
            m_kvpBuffer := <[N.to_nat it := Some kv]> (m_kvpBuffer m);
            m_controlBuffer := <[N.to_nat it := controlOf kv.1]> (m_controlBuffer m) |}
  else
    m' = m /\
    exists kv0 : pair, m_kvpBuffer m !! N.to_nat it = Some (Some kv0) /\ kv0.1 = kv.1.
Proof.
  intros Hlen Hcap Hload Hins.
  unfold Insert, FindAndAllocateSlot, FindAndAllocateSlotWith, growIfNeeded in Hins.
  apply N.eqb_neq in Hcap. rewrite Hcap, Hload in Hins. cbn [bind] in Hins.
  inv_bind Hins. destruct a as [m1 [it1 inserted1]].
  assert (Hprobe : if inserted1 then
            m1 = claimed m it1 (controlOf kv.1) /\
            exists c, m_controlBuffer m !! N.to_nat it1 = Some c /\ isAvailable c = true
          else m1 = m /\ keyEquals m it1 kv.1 = Ok true).
  { unfold probeAndAllocate in Ha. inv_bind Ha. inv_bind Ha.
    destruct kUseSimd.
    - eapply AllocSimdStableLoop_outcome; [exact (Hlen eq_refl) | | exact Ha].
      left. apply N.le_refl.
    - eapply AllocScalarLoop_outcome; exact Ha. }
  inv_bind Hins. destruct inserted1.
  - destruct Hprobe as (-> & c & Hc & Hav).
    inv_bind Hins. injection Hins as <- <- <-.
    unfold constructKvp in Ha1. cbn [claimed m_kvpBuffer m_capacity m_count m_controlBuffer] in Ha1.
    destruct (N.to_nat it1 <? length (m_kvpBuffer m))%nat eqn:Hlt; [|discriminate].
    apply Nat.ltb_lt in Hlt. injection Ha1 as <-.
    split; [eauto|]. split; [exact Hlt|]. reflexivity.
  - destruct Hprobe as (-> & Hkey). injection Hins as <- <- <-.
    split; [reflexivity|]. apply keyEquals_true. exact Hkey.
Qed.

(** A stable insert that needs no growth either leaves the map as it is and
    returns a slot that holds the key, or claims a slot that was available,
    constructs the pair in it and adds it to the pairs of the map. *)
Theorem Insert_outcome fuel (m m' : map) (kv : pair) (it : iterator) (inserted : bool) :
  N.of_nat (length (m_controlBuffer m)) <= 2 ^ 64 ->
  m_capacity m <> 0 -> loadFactorExceeded m = false ->
  Insert fuel m kv = Ok (m', (it, inserted)) ->
  if inserted then
    (exists c, m_controlBuffer m !! N.to_nat it = Some c /\ isAvailable c = true) /\
    m_kvpBuffer m' !! N.to_nat it = Some (Some kv) /\
    entries m' ≡ₚ kv :: entries m /\
    m_capacity m' = m_capacity m /\
    m_count m' = wrap64 (m_count m + 1)
  else
    m' = m /\
    exists kv0 : pair, m_kvpBuffer m !! N.to_nat it = Some (Some kv0) /\ kv0.1 = kv.1.
Proof.
  intros Hlen Hcap Hload Hins.
  pose proof (Insert_no_growth_shape _ _ _ _ _ _ (fun _ => Hlen) Hcap Hload Hins) as Hshape.
  destruct inserted; [|exact Hshape].
  destruct Hshape as ((c & Hc & Hav) & Hlt & ->).
  cbn [m_kvpBuffer m_capacity m_count]. repeat split; eauto.
  - apply list_lookup_insert_eq. exact Hlt.
  - unfold entries. cbn [m_kvpBuffer m_controlBuffer].
    eapply entriesOf_claim; eauto using controlOf_occupied.
Qed.

(** *** Insert, find and remove at a start slot that was never used *)

Lemma claimSlot_in_bounds (m : map) (index control : N) :
  (N.to_nat index < length (m_controlBuffer m))%nat ->
  claimSlot m index control = Ok (claimed m index control, (index, true)).
Proof.
  intros Hlt. unfold claimSlot, writeControl.
  apply Nat.ltb_lt in Hlt. rewrite Hlt. reflexivity.
Qed.

Lemma AllocSimdStableLoop_first_empty (useSimd : bool) (n fuel : nat) (m : map)
    (key : Key) (control probeIndex : N) (rest : list N) :
  probeIndex < m_capacity m -> probeIndex < 2 ^ 64 ->
  loadBatch batchSize m probeIndex = Ok (kUnused :: rest) ->
  AllocSimdStableLoop useSimd simdAlignment batchSize (S n) fuel m key control
    (m_capacity m) 0 probeIndex
  = claimSlot m probeIndex control.
Proof.
  intros Hlt H64 Hload. cbn [AllocSimdStableLoop].
  assert (Hpos : (0 <? m_capacity m) = true) by (apply N.ltb_lt; lia).
  rewrite Hpos, Hload, N.leb_refl. cbn [negb bind].
  pose proof (maskOf_odd (fun c => N.land c kAvailableSlotFlag =? kAvailableSlotFlag)
                kUnused rest) as Havail.
  change (N.land kUnused kAvailableSlotFlag =? kAvailableSlotFlag) with true in Havail.
  fold (availableMaskOf (kUnused :: rest)) in Havail.
  destruct (lsb_odd _ Havail) as [Hlsb Hnz]. apply N.eqb_neq in Hnz.
  rewrite Hnz, Hlsb. cbn [negb].
  pose proof (maskOf_odd (fun c => c =? kUnused) kUnused rest) as Hunused.
  cbn beta in Hunused. rewrite N.eqb_refl in Hunused.
  destruct (lsb_odd _ Hunused) as [Hlsb' Hnz']. apply N.eqb_neq in Hnz'.
  unfold lanesBeforeUnused. rewrite Hnz', Hlsb', BitMask_0, N.land_0_r, MatchLoop_zero.
  cbn [negb bind].
  assert (Hclaim : claimFirstAvailable m (wrap64 (probeIndex + 0)) control
                   = claimSlot m probeIndex control).
  { unfold claimFirstAvailable, wrap64. rewrite N.add_0_r, N.mod_small by exact H64.
    apply N.ltb_lt in Hlt. rewrite Hlt. reflexivity. }
  rewrite Hclaim.
  match goal with |- (if ?b then _ else _) = _ => destruct b end; reflexivity.
Qed.

Lemma startOf_bounds (m : map) (key : Key) :
  m_capacity m <> 0 -> startOf m key < m_capacity m /\ startOf m key < 2 ^ 64.
Proof.
  intros Hcap. split; [apply N.mod_lt; exact Hcap|].
  eapply N.le_lt_trans; [apply N.Div0.mod_le|].
  unfold hashOf, wrap64. apply N.mod_lt. discriminate.
Qed.

(** The map after a pair was constructed in a claimed slot. *)
Lemma Insert_empty_start fuel (m : map) (key : Key) (v : Value) :
  m_capacity m <> 0 -> loadFactorExceeded m = false ->
  m_controlBuffer m !! N.to_nat (startOf m key) = Some kUnused ->
  (N.to_nat (startOf m key) < length (m_kvpBuffer m))%nat ->
  batchInBounds m (startOf m key) ->
  Insert fuel m (key, v)
  = Ok ({| m_capacity := m_capacity m;
           m_count := wrap64 (m_count m + 1);
           m_kvpBuffer := <[N.to_nat (startOf m key) := Some (key, v)]> (m_kvpBuffer m);
           m_controlBuffer :=
             <[N.to_nat (startOf m key) := controlOf key]> (m_controlBuffer m) |},
        (startOf m key, true)).
Proof.
  intros Hcap Hload Hslot Hpair Hin.
  destruct (startOf_bounds m key Hcap) as [Hlt H64].
  pose proof (lookup_lt_Some _ _ _ Hslot) as Hctl.
  pose proof (controlOf_small hash key) as Hsmall.
  assert (Hprobe : probeAndAllocate fuel false m key
                   = Ok (claimed m (startOf m key) (controlOf key), (startOf m key, true))).
  { unfold probeAndAllocate, umod. fold (controlOf key).
    rewrite (land_flag_small _ Hsmall).
    destruct (capacity_to_nat m Hcap) as [n Hn].
    apply N.eqb_neq in Hcap. rewrite Hcap, Hn. cbn [N.eqb ke_assert bind].
    destruct kUseSimd eqn:Hsimd.
    - destruct (Hin eq_refl) as [Hpos Hbound].
      destruct (loadBatch_first _ _ _ Hpos Hbound Hslot) as [rest Hbatch].
      rewrite (AllocSimdStableLoop_first_empty _ _ _ _ _ _ _ _ Hlt H64 Hbatch).
      apply claimSlot_in_bounds. exact Hctl.
    - cbn [AllocScalarLoop]. unfold readControl. rewrite Hslot. cbn [bind].
      replace (kUnused =? controlOf key) with false
        by (symmetry; apply N.eqb_neq; unfold kUnused; lia).
      cbn [bind]. change (isAvailable kUnused) with true. cbn iota.
      apply claimSlot_in_bounds. exact Hctl. }
  unfold Insert, FindAndAllocateSlot, FindAndAllocateSlotWith, growIfNeeded.
  apply N.eqb_neq in Hcap. rewrite Hcap, Hload. cbn [bind fst].
  rewrite Hprobe. cbn [bind]. unfold end_. cbn [claimed m_capacity].
  replace (startOf m key =? m_capacity m) with false
    by (symmetry; apply N.eqb_neq; lia).
  cbn [negb ke_assert bind]. unfold constructKvp. cbn [claimed m_kvpBuffer].
  apply Nat.ltb_lt in Hpair. rewrite Hpair. reflexivity.
Qed.

(** Writing an available byte and anything into an available slot changes no
    pair of the map. *)
Lemma entriesOf_available (controls : list N) (slots : list (option pair))
    (i : nat) (c control : N) (s : option pair) :
  controls !! i = Some c -> isAvailable c = true -> isAvailable control = true ->
  entriesOf (<[i := control]> controls) (<[i := s]> slots) = entriesOf controls slots.
Proof.
  intros Hc Hav Hnew. revert slots i Hc.
  induction controls as [|c0 controls IH]; intros [|s0 slots] [|i] Hc;
    simpl in *; try discriminate; try reflexivity.
  - injection Hc as ->. rewrite Hnew, Hav. destruct s, s0; reflexivity.
  - rewrite (IH slots i Hc). reflexivity.
Qed.

Lemma dec64_wrap64_succ (x : N) : x < 2 ^ 64 -> dec64 (wrap64 (x + 1)) = x.
Proof.
  intros Hx. unfold dec64, wrap64.
  destruct (N.eq_dec (x + 1) (2 ^ 64)) as [Heq|Hne].
  - rewrite Heq, N.Div0.mod_same, N.add_0_l. rewrite N.mod_small; lia.
  - rewrite (N.mod_small (x + 1)) by lia.
    replace (x + 1 + (2 ^ 64 - 1)) with (x + 1 * 2 ^ 64) by lia.
    rewrite N.Div0.mod_add. apply N.mod_small. exact Hx.
Qed.

(** [Find] on the map an insert leaves when it claimed the start slot of
    its key. *)
Lemma Find_claimed_start fuel (m : map) (key : Key) (v : Value) (count : N) :
  m_capacity m <> 0 ->
  (N.to_nat (startOf m key) < length (m_controlBuffer m))%nat ->
  (N.to_nat (startOf m key) < length (m_kvpBuffer m))%nat ->
  batchInBounds m (startOf m key) ->
  Find (S fuel)
    {| m_capacity := m_capacity m;
       m_count := count;
       m_kvpBuffer := <[N.to_nat (startOf m key) := Some (key, v)]> (m_kvpBuffer m);
       m_controlBuffer :=
         <[N.to_nat (startOf m key) := controlOf key]> (m_controlBuffer m) |} key
  = Ok (startOf m key).
Proof.
  intros Hcap Hctl Hpair Hin.
  set (m' := {| m_capacity := m_capacity m |}).
  assert (Hslot' : m_controlBuffer m' !! N.to_nat (startOf m key) = Some (controlOf key))
    by (apply list_lookup_insert_eq; exact Hctl).
  assert (Hkvp' : m_kvpBuffer m' !! N.to_nat (startOf m key) = Some (Some ((key, v) : pair)))
    by (apply list_lookup_insert_eq; exact Hpair).
  assert (Heq : keyEquals m' (startOf m key) key = Ok true).
  { rewrite (keyEquals_lookup _ _ _ _ Hkvp'). rewrite bool_decide_eq_true_2; auto. }
  assert (Hcap' : m_capacity m' <> 0) by exact Hcap.
  pose proof (controlOf_used key) as Hused.
  unfold Find, umod. change (m_capacity m') with (m_capacity m).
  destruct (capacity_to_nat m Hcap) as [n Hn].
  pose proof Hcap as Hz. apply N.eqb_neq in Hz. rewrite Hz, Hn. cbn [bind].
  destruct kUseSimd eqn:Hsimd; cbn [negb].
  - destruct (Hin eq_refl) as [Hpos Hbound].
    assert (Hbound' : (N.to_nat (startOf m key) + batchSize
                       <= length (m_controlBuffer m'))%nat)
      by (cbn [m' m_controlBuffer]; rewrite length_insert; exact Hbound).
    destruct (loadBatch_first m' _ _ Hpos Hbound' Hslot') as [rest Hload].
    eapply FindSimdLoop_first_hit; eassumption.
  - cbn [FindScalarLoop]. unfold readControl. rewrite Hslot'. cbn [bind].
    apply N.eqb_neq in Hused. fold (controlOf key). rewrite Hused, N.eqb_refl, Heq.
    reflexivity.
Qed.

(** Round trip.  Inserting a key whose start slot was never used, when no
    growth is needed, constructs the pair in that slot; [Find] then returns
    the slot and [IsValidEntry] holds of it.  Both builds. *)
Theorem Insert_Find_round_trip fuel fuel' (m : map) (key : Key) (v : Value) :
  m_capacity m <> 0 -> loadFactorExceeded m = false ->
  m_controlBuffer m !! N.to_nat (startOf m key) = Some kUnused ->
  (N.to_nat (startOf m key) < length (m_kvpBuffer m))%nat ->
  batchInBounds m (startOf m key) ->
  exists m' : map,
    Insert fuel m (key, v) = Ok (m', (startOf m key, true)) /\
    Find (S fuel') m' key = Ok (startOf m key) /\
    m_kvpBuffer m' !! N.to_nat (startOf m key) = Some (Some ((key, v) : pair)) /\
    IsValidEntry m' (startOf m key) = Ok true.
Proof.
  intros Hcap Hload Hslot Hpair Hin.
  pose proof (lookup_lt_Some _ _ _ Hslot) as Hctl.
  eexists. split; [apply Insert_empty_start; assumption|].
  set (m' := {| m_capacity := m_capacity m |}).
  assert (Hctl' : m_controlBuffer m' !! N.to_nat (startOf m key) = Some (controlOf key))
    by (apply list_lookup_insert_eq; exact Hctl).
  assert (Hkvp' : m_kvpBuffer m' !! N.to_nat (startOf m key) = Some (Some ((key, v) : pair)))
    by (apply list_lookup_insert_eq; exact Hpair).
  split; [|split; [exact Hkvp'|]].
  - apply Find_claimed_start; assumption.
  - unfold IsValidEntry, readControl. rewrite Hctl'. cbn [bind].
    rewrite (land_flag_small _ (controlOf_small hash key)). reflexivity.
Qed.

(** Inserting such a key and removing it gives back the count and the pairs
    of the map; the slot is left a tombstone, for which [IsValidEntry] is
    false, and in the scalar build the key is then a miss. *)
Theorem Insert_Remove_restores fuel fuel' (m : map) (key : Key) (v : Value) :
  m_capacity m <> 0 -> loadFactorExceeded m = false ->
  m_controlBuffer m !! N.to_nat (startOf m key) = Some kUnused ->
  (N.to_nat (startOf m key) < length (m_kvpBuffer m))%nat ->
  batchInBounds m (startOf m key) ->
  m_count m < 2 ^ 64 ->
  exists m' m'' : map,
    Insert fuel m (key, v) = Ok (m', (startOf m key, true)) /\
    Remove (S fuel') m' key = Ok (m'', true) /\
    m_count m'' = m_count m /\
    m_capacity m'' = m_capacity m /\
    entries m'' = entries m /\
    m_controlBuffer m'' !! N.to_nat (startOf m key) = Some kTombstone /\
    IsValidEntry m'' (startOf m key) = Ok false /\
    (kUseSimd = false -> forall fuel'', Find fuel'' m'' key = Ok (end_ m'')).
Proof.
  intros Hcap Hload Hslot Hpair Hin Hcount.
  pose proof (lookup_lt_Some _ _ _ Hslot) as Hctl.
  pose proof (Find_claimed_start fuel' m key v (wrap64 (m_count m + 1)) Hcap Hctl Hpair Hin)
    as Hfind.
  match type of Hfind with
  | Find _ ?x _ = _ => remember x as m' eqn:Hm'
  end.
  destruct (startOf_bounds m key Hcap) as [Hlt _].
  assert (Hcap' : m_capacity m' = m_capacity m) by (subst m'; reflexivity).
  exists m'. eexists. split; [rewrite Insert_empty_start by assumption; subst m'; reflexivity|].
  assert (Hremove : Remove (S fuel') m' key
          = Ok ({| m_capacity := m_capacity m;
                   m_count := m_count m;
                   m_kvpBuffer := m_kvpBuffer m';
                   m_controlBuffer :=
                     <[N.to_nat (startOf m key) := kTombstone]> (m_controlBuffer m) |},
                true)).
  { unfold Remove. fold Find. rewrite Hfind. cbn [bind]. unfold end_. rewrite Hcap'.
    replace (startOf m key =? m_capacity m) with false
      by (symmetry; apply N.eqb_neq; lia).
    cbn [negb]. unfold writeControl. subst m'. cbn [setCount m_controlBuffer m_kvpBuffer
      m_capacity m_count].
    rewrite length_insert. apply Nat.ltb_lt in Hctl. rewrite Hctl. cbn [bind].
    rewrite list_insert_insert_eq, dec64_wrap64_succ by exact Hcount. reflexivity. }
  split; [exact Hremove|]. cbn [m_count m_capacity m_controlBuffer].
  assert (Htomb : <[N.to_nat (startOf m key) := kTombstone]> (m_controlBuffer m)
                    !! N.to_nat (startOf m key) = Some kTombstone)
    by (apply list_lookup_insert_eq; exact Hctl).
  repeat split.
  - unfold entries. subst m'. cbn [m_kvpBuffer m_controlBuffer].
    eapply entriesOf_available; [exact Hslot | reflexivity | reflexivity].
  - exact Htomb.
  - unfold IsValidEntry, readControl. cbn [m_controlBuffer]. rewrite Htomb. reflexivity.
  - intros Hscalar fuel''. unfold Find, umod. cbn [m_capacity].
    pose proof Hcap as Hcap0. apply N.eqb_neq in Hcap0. rewrite Hcap0, Hscalar.
    cbn [bind negb].
    apply FindScalarLoop_first_control with (c := kTombstone).
    + unfold readControl. cbn [m_controlBuffer]. rewrite Htomb. reflexivity.
    + discriminate.
    + change (kTombstone <> controlOf key).
      pose proof (controlOf_small hash key). unfold kTombstone. lia.
Qed.

(** *** [Grow] and the constructor *)

Lemma GrowLoop_entries fuel (m : map) (n it : nat) (temp temp' : map) :
  GrowLoop (InsertUnstable fuel) m n (N.of_nat it) temp = Ok temp' ->
  m_capacity temp <> 0 -> m_capacity temp < 2 ^ 60 -> noTombstone temp ->
  10 * (m_count temp + N.of_nat n) <= 7 * m_capacity temp ->
  m_capacity temp' = m_capacity temp /\
  noTombstone temp' /\
  entries temp' ≡ₚ segment m it n ++ entries temp /\
  m_count temp' = m_count temp + N.of_nat (length (segment m it n)).
Proof.
  revert it temp. induction n as [|n IH]; intros it temp Hloop Hcap Hrange Hno Hbudget.
  - simpl in Hloop. injection Hloop as <-. unfold segment. simpl.
    rewrite N.add_0_r. auto.
  - simpl in Hloop. inv_bind Hloop. rename a into c.
    apply readControl_Ok in Ha. rewrite Nat2N.id in Ha.
    inv_bind Hloop. rename a into temp1.
    replace (N.of_nat it + 1) with (N.of_nat (S it)) in Hloop by lia.
    destruct (N.land c kAvailableSlotFlag =? 0) eqn:Hflag.
    + assert (Hav : isAvailable c = false) by (unfold isAvailable; rewrite Hflag; reflexivity).
      inv_bind Ha0. rename a into kv. inv_bind Ha0. destruct a as [temp2 it2].
      cbn [fst] in Ha0. injection Ha0 as ->.
      apply readKvp_Ok in Ha1. rewrite Nat2N.id in Ha1.
      rewrite (segment_keep _ _ _ _ _ Ha Hav Ha1). cbn [length].
      assert (Hload : loadFactorExceeded temp = false).
      { unfold loadFactorExceeded, wrap64. apply N.ltb_ge.
        assert ((2 : N) ^ 64 = 16 * 2 ^ 60) by reflexivity.
        rewrite N.mod_small; lia. }
      destruct (InsertUnstable_no_growth_entries hash _ _ _ _ _ _ _ _ Hcap Hload Ha2)
        as (Hent & Hno1 & Hcap1 & Hcount1 & _).
      assert (H64 : (2 : N) ^ 64 = 16 * 2 ^ 60) by reflexivity.
      unfold wrap64 in Hcount1. rewrite N.mod_small in Hcount1 by lia.
      destruct (IH _ _ Hloop) as (Hcap' & Hno' & Hent' & Hcount');
        [congruence | congruence | auto | rewrite Hcap1, Hcount1; lia |].
      repeat split; try congruence.
      * rewrite Hent', Hent. simpl. symmetry. apply Permutation_middle.
      * rewrite Hcount', Hcount1. lia.
    + assert (Hav : isAvailable c = true) by (unfold isAvailable; rewrite Hflag; reflexivity).
      injection Ha0 as ->.
      rewrite (segment_skip _ _ _ _ Ha Hav).
      destruct (IH _ _ Hloop) as (Hcap' & Hno' & Hent' & Hcount');
        [assumption | assumption | assumption | lia |].
      auto.
Qed.

(** [Grow] of a map of capacity other than 0, to a capacity its count fits
    in: the result has the new capacity rounded up to the control alignment
    and no tombstone; it holds the pairs of the occupied slots of index below
    [m_count], and no other; its count is their number. *)
Theorem Grow_replaces_slots_below_count fuel (m m' : map) (newCapacity : N) :
  0 < kControlAlignment -> m_capacity m <> 0 ->
  0 < newCapacity -> newCapacity + kControlAlignment < 2 ^ 60 ->
  10 * m_count m <= 7 * newCapacity ->
  Grow fuel m newCapacity = Ok m' ->
  m_capacity m' = AlignUp newCapacity kControlAlignment /\
  newCapacity <= m_capacity m' /\
  noTombstone m' /\
  entries m' ≡ₚ segment m 0 (N.to_nat (m_count m)) /\
  m_count m' = N.of_nat (length (segment m 0 (N.to_nat (m_count m)))).
Proof.
  intros Halign Hcap Hpos Hrange Hload Hgrow.
  destruct fuel as [|fuel]; simpl in Hgrow; [discriminate|].
  apply N.eqb_neq in Hcap. rewrite Hcap in Hgrow.
  inv_bind Hgrow. rename a into temp.
  unfold constructWith in Ha. apply N.ltb_lt in Hpos. rewrite Hpos in Ha.
  apply N.ltb_lt in Hpos.
  apply (Grow_capacity_zero hash) in Ha; [|reflexivity]. subst temp.
  assert (H64 : (2 : N) ^ 64 = 16 * 2 ^ 60) by reflexivity.
  pose proof (AlignUp_ge newCapacity kControlAlignment Halign ltac:(lia)) as Hge.
  assert (Hup : AlignUp newCapacity kControlAlignment < 2 ^ 60).
  { clear Hgrow. unfold AlignUp, wrap64.
    replace (newCapacity + kControlAlignment + (2 ^ 64 - 1))
      with ((newCapacity + kControlAlignment - 1) + 1 * 2 ^ 64) by lia.
    rewrite N.Div0.mod_add.
    rewrite (N.mod_small (newCapacity + kControlAlignment - 1)) by lia.
    eapply N.le_lt_trans; [apply N.Div0.mod_le|]. rewrite N.mul_comm.
    eapply N.le_lt_trans; [apply N.Div0.mul_div_le|]. lia. }
  change 0 with (N.of_nat 0) in Hgrow.
  apply GrowLoop_entries in Hgrow; cbn [allocated m_capacity m_count] in *.
  - destruct Hgrow as (Hcap' & Hno' & Hent' & Hcount').
    rewrite (allocated_entries kUseSimd simdAlignment), app_nil_r in Hent'.
    rewrite N.add_0_l in Hcount'.
    split; [exact Hcap'|]. split; [rewrite Hcap'; exact Hge|]. auto.
  - lia.
  - assumption.
  - apply allocated_noTombstone.
  - rewrite N2Nat.id. lia.
Qed.

Local Abbreviation loadFactorOk := (loadFactorOk (Key := Key) (Value := Value)).

(** A stable insert never shrinks the map: the capacity it ends with is at
    least the one it started from, at least 32 when it started from 0, and
    at least twice the former when the load factor asked for growth. *)
Theorem Insert_never_shrinks fuel (m m' : map) (kv : pair) (r : iterator * bool) :
  0 < kControlAlignment < 2 ^ 53 -> m_capacity m < 2 ^ 53 -> loadFactorOk m ->
  Insert fuel m kv = Ok (m', r) ->
  m_capacity m <= m_capacity m' /\
  (m_capacity m = 0 -> 32 <= m_capacity m') /\
  (m_capacity m <> 0 -> loadFactorExceeded m = true ->
   2 * m_capacity m <= m_capacity m').
Proof.
  intros Halign Hrange Hload Hins. unfold loadFactorOk in Hload.
  unfold Insert, FindAndAllocateSlot, FindAndAllocateSlotWith in Hins.
  inv_bind Hins. destruct a as [m2 [it inserted]].
  inv_bind Ha. rename a into m1.
  apply (probeAndAllocate_state hash) in Ha as [_ Hstate].
  assert (Hcap2 : m_capacity m2 = m_capacity m1)
    by (destruct Hstate as [->|[it' ->]]; reflexivity).
  assert (Hcap' : m_capacity m' = m_capacity m1).
  { inv_bind Hins. destruct inserted.
    - inv_bind Hins. injection Hins as <- _.
      unfold constructKvp in Ha1. destruct (_ <? _)%nat; [|discriminate].
      injection Ha1 as <-. exact Hcap2.
    - injection Hins as <- _. exact Hcap2. }
  rewrite Hcap'. clear Hins Hstate Hcap2 Hcap'.
  assert (H53 : (2 : N) ^ 60 = 128 * 2 ^ 53) by reflexivity.
  assert (H64 : (2 : N) ^ 64 = 16 * 2 ^ 60) by reflexivity.
  assert (Hp : 0 < (2 : N) ^ 53) by reflexivity.
  unfold growIfNeeded in Ha0.
  destruct (m_capacity m =? 0) eqn:Hzero.
  - apply N.eqb_eq in Hzero.
    apply (Grow_capacity_zero hash) in Ha0; [|exact Hzero]. subst m1.
    cbn [allocated m_capacity].
    pose proof (AlignUp_ge 32 kControlAlignment ltac:(lia) ltac:(lia)).
    repeat split; intros; lia.
  - apply N.eqb_neq in Hzero.
    destruct (loadFactorExceeded m) eqn:Hex.
    + unfold wrap64 in Ha0. rewrite N.mod_small in Ha0 by lia.
      apply (Grow_nonempty_spec hash) in Ha0; [|lia..].
      destruct Ha0 as [Hcap1 _]. repeat split; intros; lia.
    + injection Ha0 as <-. repeat split; intros; (lia || discriminate).
Qed.

(** A map constructed with an initial capacity: its capacity is at least the
    one asked for, it holds no pair and no tombstone, and every key whose
    batch lies inside the control buffer (every key, in the scalar build) is
    a miss for [Find] and for [Remove]. *)
Theorem constructed_map_is_empty fuel (m : map) (initialCapacity : N) :
  0 < kControlAlignment -> initialCapacity + kControlAlignment <= 2 ^ 64 ->
  FlatHashMap_new fuel initialCapacity = Ok m ->
  initialCapacity <= m_capacity m /\
  m_count m = 0 /\ entries m = [] /\ noTombstone m /\
  forall fuel' key,
    0 < initialCapacity -> batchInBounds m (startOf m key) ->
    Find fuel' m key = Ok (end_ m) /\ Remove fuel' m key = Ok (m, false).
Proof.
  intros Halign Hrange Hnew. unfold FlatHashMap_new, constructWith in Hnew.
  destruct (0 <? initialCapacity) eqn:Hpos.
  - apply N.ltb_lt in Hpos.
    apply (Grow_capacity_zero hash) in Hnew; [|reflexivity]. subst m.
    pose proof (AlignUp_ge initialCapacity kControlAlignment Halign Hrange) as Hge.
    split; [exact Hge|]. split; [reflexivity|].
    split; [apply allocated_entries|]. split; [apply allocated_noTombstone|].
    intros fuel' key _ Hin.
    set (m := allocated (AlignUp initialCapacity kControlAlignment)) in *.
    assert (Hcap : m_capacity m <> 0) by (cbn [m allocated m_capacity]; lia).
    assert (Hslot : m_controlBuffer m !! N.to_nat (startOf m key) = Some kUnused).
    { destruct (startOf_bounds m key Hcap) as [Hlt _].
      cbn [m allocated m_controlBuffer m_capacity] in *.
      apply lookup_replicate_2. lia. }
    assert (Hfind : Find fuel' m key = Ok (end_ m)).
    { unfold Find, umod. destruct (capacity_to_nat m Hcap) as [n Hn].
      pose proof Hcap as Hz. apply N.eqb_neq in Hz. rewrite Hz, Hn. cbn [bind].
      destruct kUseSimd eqn:Hsimd; cbn [negb].
      - destruct (Hin eq_refl) as [Hlanes Hbound].
        destruct (loadBatch_first _ _ _ Hlanes Hbound Hslot) as [rest Hload].
        eapply FindSimdLoop_first_empty; eassumption.
      - cbn [FindScalarLoop]. unfold readControl. rewrite Hslot. reflexivity. }
    split; [exact Hfind|].
    unfold Remove. fold Find. rewrite Hfind. cbn [bind].
    rewrite N.eqb_refl. reflexivity.
  - apply N.ltb_ge in Hpos. injection Hnew as <-.
    cbn [emptyMap m_capacity m_count]. split; [lia|]. split; [reflexivity|].
    split; [reflexivity|]. split; [constructor|]. intros; lia.
Qed.

(** *** Completion of the scalar inserts *)

Local Abbreviation slotsConstructed := (slotsConstructed (Key := Key) (Value := Value)).
Local Abbreviation hasAvailableSlot := (hasAvailableSlot (Key := Key) (Value := Value)).

Lemma AllocScalarLoop_completes (n : nat) (Fast : bool) (m : map) (key : Key) (control : N) :
  slotsConstructed m -> m_capacity m <> 0 -> isAvailable control = false ->
  forall (d : nat) (probeIndex c : N),
    (d < n)%nat -> probeIndex < m_capacity m ->
    m_controlBuffer m !! N.to_nat ((probeIndex + N.of_nat d) mod m_capacity m) = Some c ->
    isAvailable c = true ->
    exists m' it inserted,
      AllocScalarLoop n Fast m key control probeIndex = Ok (m', (it, inserted)) /\
      it < m_capacity m.
Proof.
  intros [Hlen Hslots] Hcap Hocc.
  induction n as [|n IH]; intros d probeIndex c Hd Hlt Hc Hav; [lia|].
  destruct (Hslots probeIndex Hlt) as (c0 & Hc0 & Hinit).
  cbn [AllocScalarLoop]. unfold readControl. rewrite Hc0. cbn [bind].
  assert (Hhit : exists hit,
            (if Fast then Ok false
             else if c0 =? control then keyEquals m probeIndex key else Ok false)
            = Ok hit).
  { destruct Fast; [eauto|]. destruct (N.eqb_spec c0 control) as [->|_]; [|eauto].
    destruct (Hinit Hocc) as [kv Hkv]. rewrite (keyEquals_lookup _ _ _ _ Hkv). eauto. }
  destruct Hhit as [hit ->]. cbn [bind]. destruct hit; [eauto|].
  destruct (isAvailable c0) eqn:Hav0.
  - rewrite claimSlot_in_bounds by (eapply lookup_lt_Some; exact Hc0). eauto.
  - destruct d as [|d].
    + rewrite N.add_0_r, N.mod_small in Hc by exact Hlt. congruence.
    + destruct (IH d ((probeIndex + 1) mod m_capacity m) c) as (m' & it & b & Hrun & Hit).
      * lia.
      * apply N.mod_lt. exact Hcap.
      * rewrite N.Div0.add_mod_idemp_l.
        replace (probeIndex + 1 + N.of_nat d) with (probeIndex + N.of_nat (S d)) by lia.
        exact Hc.
      * exact Hav.
      * eauto.
Qed.

(** In the scalar build, on a map whose occupied slots are constructed and
    that has an available slot, an insert that needs no growth completes:
    neither the stable nor the unstable one reaches the "unreachable" end of
    the probe loop, a failed assertion or an access out of bounds; the slot
    returned lies within the capacity. *)
Theorem Insert_scalar_completes fuel (m : map) (kv : pair) :
  kUseSimd = false ->
  m_capacity m <> 0 -> loadFactorExceeded m = false ->
  slotsConstructed m -> hasAvailableSlot m ->
  (exists m' it inserted,
     Insert fuel m kv = Ok (m', (it, inserted)) /\ it < m_capacity m) /\
  (exists m' it,
     InsertUnstable fuel m kv = Ok (m', it) /\ it < m_capacity m).
Proof.
  intros Hscalar Hcap Hload Hcons (j & c & Hj & Hc & Hav).
  destruct (startOf_bounds m kv.1 Hcap) as [Hlt _].
  assert (Hprobe : forall Fast, exists m' it inserted,
            probeAndAllocate fuel Fast m kv.1 = Ok (m', (it, inserted)) /\
            it < m_capacity m).
  { intros Fast. unfold probeAndAllocate, umod. fold (controlOf kv.1).
    rewrite (land_flag_small _ (controlOf_small hash kv.1)), Hscalar.
    pose proof Hcap as Hcap'. apply N.eqb_neq in Hcap'. rewrite Hcap'.
    cbn [N.eqb ke_assert bind].
    apply (AllocScalarLoop_completes _ _ _ _ _ Hcons Hcap (controlOf_occupied hash kv.1)
             (N.to_nat ((j + m_capacity m - startOf m kv.1) mod m_capacity m)) _ c).
    - pose proof (N.mod_lt (j + m_capacity m - startOf m kv.1) (m_capacity m) Hcap). lia.
    - exact Hlt.
    - rewrite N2Nat.id, N.Div0.add_mod_idemp_r.
      replace (startOf m kv.1 + (j + m_capacity m - startOf m kv.1))
        with (j + 1 * m_capacity m) by lia.
      rewrite N.Div0.mod_add, N.mod_small by exact Hj. exact Hc.
    - exact Hav. }
  destruct Hcons as [Hlen _].
  assert (Hstate : forall Fast m' it inserted,
            probeAndAllocate fuel Fast m kv.1 = Ok (m', (it, inserted)) ->
            m_capacity m' = m_capacity m /\ m_kvpBuffer m' = m_kvpBuffer m).
  { intros Fast m' it inserted Hrun.
    apply (probeAndAllocate_state hash) in Hrun as [_ [->|[it' ->]]]; auto. }
  apply N.eqb_neq in Hcap. split.
  - destruct (Hprobe false) as (m' & it & inserted & Hrun & Hit).
    destruct (Hstate _ _ _ _ Hrun) as [Hcap' Hkvp'].
    unfold Insert, FindAndAllocateSlot, FindAndAllocateSlotWith, growIfNeeded.
    rewrite Hcap, Hload. cbn [bind]. rewrite Hrun. cbn [bind].
    unfold end_. rewrite Hcap'.
    replace (it =? m_capacity m) with false by (symmetry; apply N.eqb_neq; lia).
    cbn [negb ke_assert bind]. destruct inserted; [|eauto].
    unfold constructKvp. rewrite Hkvp', Hlen.
    replace (N.to_nat it <? N.to_nat (m_capacity m))%nat with true
      by (symmetry; apply Nat.ltb_lt; lia).
    cbn [bind]. eauto.
  - destruct (Hprobe true) as (m' & it & inserted & Hrun & Hit).
    destruct (Hstate _ _ _ _ Hrun) as [Hcap' Hkvp'].
    pose proof Hrun as Hfast.
    apply (probeAndAllocate_fast hash) in Hfast as (-> & _ & _).
    unfold InsertUnstable, InsertUnstableWith, FindAndAllocateSlotWith, growIfNeeded.
    rewrite Hcap, Hload. cbn [bind]. rewrite Hrun. cbn [bind].
    unfold end_. rewrite Hcap'.
    replace (it =? m_capacity m) with false by (symmetry; apply N.eqb_neq; lia).
    cbn [negb andb ke_assert bind].
    unfold constructKvp. rewrite Hkvp', Hlen.
    replace (N.to_nat it <? N.to_nat (m_capacity m))%nat with true
      by (symmetry; apply Nat.ltb_lt; lia).
    cbn [bind]. eauto.
Qed.

(** *** The vectorized stable insert on a collision *)

Lemma AllocSimdStableLoop_first_diverges (useSimd : bool) (n fuel : nat) (m : map)
    (key : Key) (control firstAvailableIndex probeIndex : N) (rest : list N) :
  m_capacity m <> 0 -> control <> kUnused ->
  loadBatch batchSize m probeIndex = Ok (control :: rest) ->
  keyEquals m probeIndex key = Ok false ->
  AllocSimdStableLoop useSimd simdAlignment batchSize (S n) fuel m key control
    firstAvailableIndex 0 probeIndex = Fault OutOfFuel.
Proof.
  intros Hcap Hused Hload Hkey. cbn [AllocSimdStableLoop].
  assert (Hlt : (0 <? m_capacity m) = true) by (apply N.ltb_lt; lia).
  rewrite Hlt, Hload. cbn [negb bind].
  pose proof (maskOf_odd (fun c => c =? control) control rest) as Hexp.
  cbn beta in Hexp. rewrite N.eqb_refl in Hexp.
  pose proof (lanesBeforeUnused_odd control rest Hused) as Hbefore.
  set (controlMask := maskOf (fun c => c =? control) (control :: rest)) in *.
  set (before := lanesBeforeUnused _) in *.
  assert (Hmatch : N.odd (N.land controlMask before) = true)
    by (rewrite land_odd, Hexp, Hbefore; reflexivity).
  destruct (lsb_odd _ Hexp) as [_ Hexpnz]. apply N.eqb_neq in Hexpnz. rewrite Hexpnz.
  rewrite (MatchLoop_diverges _ _ _ Hkey fuel _ Hmatch). reflexivity.
Qed.

(** In the vectorized build, the stable insert of a key whose start slot
    holds another key under the same fragment does not terminate either. *)
Theorem Insert_simd_diverges (m : map) (key : Key) (v : Value) (kv : pair) :
  kUseSimd = true ->
  m_capacity m <> 0 -> loadFactorExceeded m = false ->
  m_controlBuffer m !! N.to_nat (startOf m key) = Some (controlOf key) ->
  m_kvpBuffer m !! N.to_nat (startOf m key) = Some (Some kv) ->
  kv.1 <> key ->
  batchInBounds m (startOf m key) ->
  forall fuel, Insert fuel m (key, v) = Fault OutOfFuel.
Proof.
  intros Hsimd Hcap Hload Hslot Hpair Hkey Hin fuel.
  assert (Heq : keyEquals m (startOf m key) key = Ok false).
  { rewrite (keyEquals_lookup _ _ _ _ Hpair). rewrite bool_decide_eq_false_2; auto. }
  destruct (Hin Hsimd) as [Hpos Hbound].
  destruct (loadBatch_first _ _ _ Hpos Hbound Hslot) as [rest Hbatch].
  destruct (capacity_to_nat m Hcap) as [n Hn].
  unfold Insert, FindAndAllocateSlot, FindAndAllocateSlotWith, growIfNeeded.
  pose proof Hcap as Hcap'. apply N.eqb_neq in Hcap'. rewrite Hcap', Hload.
  cbn [bind fst]. unfold probeAndAllocate, umod. fold (controlOf key).
  rewrite (land_flag_small _ (controlOf_small hash key)), Hcap', Hsimd, Hn.
  cbn [N.eqb ke_assert bind].
  rewrite (AllocSimdStableLoop_first_diverges _ _ _ _ _ _ _ _ _ Hcap
             (controlOf_used key) Hbatch Heq).
  reflexivity.
Qed.

(** *** A stable insert of a key that sits in its start slot *)

Lemma AllocSimdStableLoop_first_hit (useSimd : bool) (n fuel : nat) (m : map)
    (key : Key) (control firstAvailableIndex probeIndex : N) (rest : list N) :
  m_capacity m <> 0 -> control <> kUnused ->
  loadBatch batchSize m probeIndex = Ok (control :: rest) ->
  keyEquals m probeIndex key = Ok true ->
  AllocSimdStableLoop useSimd simdAlignment batchSize (S n) (S fuel) m key control
    firstAvailableIndex 0 probeIndex = Ok (m, (probeIndex, false)).
Proof.
  intros Hcap Hused Hload Hkey. cbn [AllocSimdStableLoop].
  assert (Hlt : (0 <? m_capacity m) = true) by (apply N.ltb_lt; lia).
  rewrite Hlt, Hload. cbn [negb bind].
  pose proof (maskOf_odd (fun c => c =? control) control rest) as Hexp.
  cbn beta in Hexp. rewrite N.eqb_refl in Hexp.
  pose proof (lanesBeforeUnused_odd control rest Hused) as Hbefore.
  set (controlMask := maskOf (fun c => c =? control) (control :: rest)) in *.
  set (before := lanesBeforeUnused _) in *.
  assert (Hmatch : N.odd (N.land controlMask before) = true)
    by (rewrite land_odd, Hexp, Hbefore; reflexivity).
  destruct (lsb_odd _ Hexp) as [_ Hexpnz]. apply N.eqb_neq in Hexpnz. rewrite Hexpnz.
  destruct (lsb_odd _ Hmatch) as [Hlsb Hnz]. apply N.eqb_neq in Hnz.
  cbn [MatchLoop]. rewrite Hnz, Hlsb.
  change (wrap64 (0 + 0)) with 0. rewrite N.add_0_r, Hkey. reflexivity.
Qed.

(** No duplicate at the start slot.  A stable insert of a key that sits in
    its start slot, when no growth is needed, returns that slot with the
    flag unset and leaves the map, and so the stored value, as it is.  Both
    builds. *)
Theorem Insert_existing_at_start fuel (m : map) (key : Key) (v : Value) (kv : pair) :
  m_capacity m <> 0 -> loadFactorExceeded m = false ->
  m_controlBuffer m !! N.to_nat (startOf m key) = Some (controlOf key) ->
  m_kvpBuffer m !! N.to_nat (startOf m key) = Some (Some kv) ->
  kv.1 = key ->
  batchInBounds m (startOf m key) ->
  Insert (S fuel) m (key, v) = Ok (m, (startOf m key, false)).
Proof.
  intros Hcap Hload Hslot Hpair Hkey Hin.
  assert (Heq : keyEquals m (startOf m key) key = Ok true).
  { rewrite (keyEquals_lookup _ _ _ _ Hpair). rewrite bool_decide_eq_true_2; auto. }
  destruct (startOf_bounds m key Hcap) as [Hlt _].
  destruct (capacity_to_nat m Hcap) as [n Hn].
  assert (Hprobe : probeAndAllocate (S fuel) false m key = Ok (m, (startOf m key, false))).
  { unfold probeAndAllocate, umod. fold (controlOf key).
    rewrite (land_flag_small _ (controlOf_small hash key)).
    pose proof Hcap as Hcap'. apply N.eqb_neq in Hcap'. rewrite Hcap', Hn.
    cbn [N.eqb ke_assert bind].
    destruct kUseSimd eqn:Hsimd.
    - destruct (Hin eq_refl) as [Hpos Hbound].
      destruct (loadBatch_first _ _ _ Hpos Hbound Hslot) as [rest Hbatch].
      apply (AllocSimdStableLoop_first_hit _ _ _ _ _ _ _ _ _ Hcap
               (controlOf_used key) Hbatch Heq).
    - cbn [AllocScalarLoop]. unfold readControl. rewrite Hslot. cbn [bind].
      rewrite N.eqb_refl, Heq. reflexivity. }
  unfold Insert, FindAndAllocateSlot, FindAndAllocateSlotWith, growIfNeeded.
  pose proof Hcap as Hcap'. apply N.eqb_neq in Hcap'. rewrite Hcap', Hload.
  cbn [bind fst]. rewrite Hprobe. cbn [bind]. unfold end_.
  replace (startOf m key =? m_capacity m) with false
    by (symmetry; apply N.eqb_neq; lia).
  reflexivity.
Qed.

(** *** The scalar build at a start slot that is not empty *)

(** In the scalar build a stable insert claims its start slot whenever that
    slot is available, a tombstone included, and looks no further: a pair
    of the same key in a later slot of the probe sequence is not seen. *)
Theorem Insert_scalar_claims_available_start fuel (m : map) (key : Key) (v : Value) (c : N) :
  kUseSimd = false ->
  m_capacity m <> 0 -> loadFactorExceeded m = false ->
  m_controlBuffer m !! N.to_nat (startOf m key) = Some c ->
  isAvailable c = true ->
  (N.to_nat (startOf m key) < length (m_kvpBuffer m))%nat ->
  Insert fuel m (key, v)
  = Ok ({| m_capacity := m_capacity m;
           m_count := wrap64 (m_count m + 1);
           m_kvpBuffer := <[N.to_nat (startOf m key) := Some (key, v)]> (m_kvpBuffer m);
           m_controlBuffer :=
             <[N.to_nat (startOf m key) := controlOf key]> (m_controlBuffer m) |},
        (startOf m key, true)).
Proof.
  intros Hscalar Hcap Hload Hslot Hav Hpair.
  destruct (startOf_bounds m key Hcap) as [Hlt _].
  destruct (capacity_to_nat m Hcap) as [n Hn].
  pose proof (lookup_lt_Some _ _ _ Hslot) as Hctl.
  assert (Hne : (c =? controlOf key) = false).
  { apply N.eqb_neq. intros ->. rewrite (controlOf_occupied hash key) in Hav. discriminate. }
  unfold Insert, FindAndAllocateSlot, FindAndAllocateSlotWith, growIfNeeded.
  pose proof Hcap as Hcap'. apply N.eqb_neq in Hcap'. rewrite Hcap', Hload.
  cbn [bind fst]. unfold probeAndAllocate, umod. fold (controlOf key).
  rewrite (land_flag_small _ (controlOf_small hash key)), Hcap', Hscalar, Hn.
  cbn [N.eqb ke_assert bind AllocScalarLoop]. unfold readControl. rewrite Hslot.
  cbn [bind]. rewrite Hne. cbn [bind]. rewrite Hav.
  rewrite claimSlot_in_bounds by exact Hctl. cbn [bind]. unfold end_.
  cbn [claimed m_capacity].
  replace (startOf m key =? m_capacity m) with false
    by (symmetry; apply N.eqb_neq; lia).
  cbn [negb ke_assert bind]. unfold constructKvp. cbn [claimed m_kvpBuffer].
  apply Nat.ltb_lt in Hpair. rewrite Hpair. reflexivity.
Qed.

Lemma FindScalarLoop_scans_keys (m : map) (key : Key) (expectedControl control : N) :
  m_capacity m <> 0 ->
  readControl m control = Ok expectedControl -> expectedControl <> kUnused ->
  forall (d n : nat) (probeIndex : N) (kv : pair),
    (d < n)%nat -> probeIndex < m_capacity m ->
    (forall j, (j < d)%nat ->
       exists kv0 : pair,
         m_kvpBuffer m !! N.to_nat ((probeIndex + N.of_nat j) mod m_capacity m)
           = Some (Some kv0) /\ kv0.1 <> key) ->
    m_kvpBuffer m !! N.to_nat ((probeIndex + N.of_nat d) mod m_capacity m)
      = Some (Some kv) ->
    kv.1 = key ->
    FindScalarLoop n m key expectedControl control probeIndex
    = Ok ((probeIndex + N.of_nat d) mod m_capacity m).
Proof.
  intros Hcap Hread Hused.
  induction d as [|d IH]; intros n probeIndex kv Hd Hlt Hothers Hpair Hkey;
    (destruct n as [|n]; [lia|]); cbn [FindScalarLoop]; rewrite Hread; cbn [bind];
    pose proof Hused as Hused'; apply N.eqb_neq in Hused'; rewrite Hused', N.eqb_refl.
  - change (N.of_nat 0) with 0 in *. rewrite N.add_0_r in *.
    rewrite (N.mod_small _ _ Hlt) in *.
    rewrite (keyEquals_lookup _ _ _ _ Hpair), bool_decide_eq_true_2 by exact Hkey.
    reflexivity.
  - destruct (Hothers 0%nat ltac:(lia)) as (kv0 & Hkv0 & Hne).
    change (N.of_nat 0) with 0 in Hkv0. rewrite N.add_0_r, (N.mod_small _ _ Hlt) in Hkv0.
    rewrite (keyEquals_lookup _ _ _ _ Hkv0), bool_decide_eq_false_2 by exact Hne.
    cbn [bind].
    assert (Hshift : forall j,
              ((probeIndex + 1) mod m_capacity m + N.of_nat j) mod m_capacity m
              = (probeIndex + N.of_nat (S j)) mod m_capacity m).
    { intros j. rewrite N.Div0.add_mod_idemp_l. f_equal. lia. }
    rewrite <- Hshift. apply (IH n _ kv).
    + lia.
    + apply N.mod_lt. exact Hcap.
    + intros j Hj. rewrite Hshift. apply Hothers. lia.
    + rewrite Hshift. exact Hpair.
    + exact Hkey.
Qed.

(** In the scalar build, once the control byte of the start slot is the
    fragment of the key, [Find] returns the first slot in probe order whose
    stored key compares equal, whatever the control bytes of the slots it
    walks over and of the slot it returns: a tombstoned slot is returned
    like an occupied one. *)
Theorem Find_scalar_ignores_later_controls fuel (m : map) (key : Key) (d : nat) (kv : pair) :
  kUseSimd = false -> m_capacity m <> 0 ->
  m_controlBuffer m !! N.to_nat (startOf m key) = Some (controlOf key) ->
  (d < N.to_nat (m_capacity m))%nat ->
  (forall j, (j < d)%nat ->
     exists kv0 : pair,
       m_kvpBuffer m !! N.to_nat ((startOf m key + N.of_nat j) mod m_capacity m)
         = Some (Some kv0) /\ kv0.1 <> key) ->
  m_kvpBuffer m !! N.to_nat ((startOf m key + N.of_nat d) mod m_capacity m)
    = Some (Some kv) ->
  kv.1 = key ->
  Find fuel m key = Ok ((startOf m key + N.of_nat d) mod m_capacity m).
Proof.
  intros Hscalar Hcap Hslot Hd Hothers Hpair Hkey.
  destruct (startOf_bounds m key Hcap) as [Hlt _].
  unfold Find, umod. pose proof Hcap as Hcap'. apply N.eqb_neq in Hcap'.
  rewrite Hcap', Hscalar. cbn [bind negb]. fold (controlOf key).
  assert (Hread : readControl m (startOf m key) = Ok (controlOf key))
    by (unfold readControl; rewrite Hslot; reflexivity).
  apply (FindScalarLoop_scans_keys m key (controlOf key) (startOf m key) Hcap Hread
           (controlOf_used key) d _ _ kv); assumption.
Qed.

(** *** The vectorized match loop past lane 0 *)

Lemma loadBatch_first_two (m : map) (probeIndex c0 c1 : N) :
  (2 <= batchSize)%nat ->
  (N.to_nat probeIndex + batchSize <= length (m_controlBuffer m))%nat ->
  m_controlBuffer m !! N.to_nat probeIndex = Some c0 ->
  m_controlBuffer m !! N.to_nat (probeIndex + 1) = Some c1 ->
  exists rest, loadBatch batchSize m probeIndex = Ok (c0 :: c1 :: rest).
Proof.
  intros Hpos Hin Hc0 Hc1. unfold loadBatch.
  replace (N.to_nat (probeIndex + 1)) with (S (N.to_nat probeIndex)) in Hc1 by lia.
  rewrite (drop_S _ _ _ Hc0), (drop_S _ _ _ Hc1).
  destruct batchSize as [|[|w]] eqn:Hw; [lia | lia |].
  cbn [take]. eexists. cbn [length]. rewrite length_take, length_drop.
  match goal with
  | |- context [(?a =? ?b)%nat] =>
      replace (a =? b)%nat with true by (symmetry; apply Nat.eqb_eq; lia)
  end.
  reflexivity.
Qed.

Lemma FindSimdLoop_second_lane (useSimd : bool) (n fuel : nat) (m : map) (key : Key)
    (expectedControl probeIndex c0 : N) (rest : list N) (r : result bool) :
  m_capacity m <> 0 -> expectedControl <> kUnused ->
  c0 <> expectedControl -> c0 <> kUnused ->
  loadBatch batchSize m probeIndex = Ok (c0 :: expectedControl :: rest) ->
  keyEquals m (probeIndex + 1) key = Ok false ->
  keyEquals m (probeIndex + 3) key = r ->
  (r = Ok true \/ exists f, r = Fault f) ->
  FindSimdLoop useSimd simdAlignment batchSize (S n) (S (S fuel)) m key expectedControl 0
    probeIndex
  = (_ <- r;; Ok (probeIndex + 3)).
Proof.
  intros Hcap Hused Hc0 Hc0u Hload Hk1 Hk3 Hr. cbn [FindSimdLoop].
  assert (Hlt : (0 <? m_capacity m) = true) by (apply N.ltb_lt; lia).
  rewrite Hlt, Hload. cbn [negb bind].
  set (expectedMask := maskOf (fun c => c =? expectedControl) (c0 :: expectedControl :: rest)).
  set (before := lanesBeforeUnused _).
  assert (He0 : N.testbit expectedMask 0 = false).
  { unfold expectedMask. rewrite maskOf_bit0. apply N.eqb_neq. exact Hc0. }
  assert (He1 : N.testbit expectedMask 1 = true).
  { unfold expectedMask. rewrite maskOf_bit1. apply N.eqb_refl. }
  assert (Hb1 : N.testbit before 1 = true)
    by (apply lanesBeforeUnused_bit1; assumption).
  assert (Hm0 : N.testbit (N.land expectedMask before) 0 = false)
    by (rewrite N.land_spec, He0; reflexivity).
  assert (Hm1 : N.testbit (N.land expectedMask before) 1 = true)
    by (rewrite N.land_spec, He1, Hb1; reflexivity).
  destruct (lsb_at_1 _ He0 He1) as [_ Hexpnz]. apply N.eqb_neq in Hexpnz. rewrite Hexpnz.
  destruct (lsb_at_1 _ Hm0 Hm1) as [Hlsb Hnz]. apply N.eqb_neq in Hnz.
  destruct (shiftl1_bits _ Hm0 Hm1) as (Hs0 & Hs1 & Hs2).
  destruct (lsb_at_2 _ Hs0 Hs1 Hs2) as [Hlsb2 Hnz2]. apply N.eqb_neq in Hnz2.
  cbn [MatchLoop]. rewrite Hnz, Hlsb. change (wrap64 (0 + 1)) with 1.
  rewrite Hk1. cbn [bind]. rewrite Hnz2, Hlsb2. change (wrap64 (1 + 2)) with 3.
  rewrite Hk3. destruct Hr as [-> | [f ->]]; reflexivity.
Qed.

(** In the vectorized build the match loop adds the index of the lowest set
    bit to its offset and shifts the mask left by it.  When the first
    matching lane is lane 1 and holds another key, the next slot it compares
    is the one 3 lanes from the start, whatever its control byte, not the
    next matching lane: a key found there is returned, and a slot in which no
    pair was ever constructed is read. *)
Theorem Find_simd_skips_lanes fuel (m : map) (key : Key) (c0 : N) (kv : pair) :
  kUseSimd = true -> m_capacity m <> 0 ->
  (2 <= batchSize)%nat ->
  (N.to_nat (startOf m key) + batchSize <= length (m_controlBuffer m))%nat ->
  m_controlBuffer m !! N.to_nat (startOf m key) = Some c0 ->
  c0 <> controlOf key -> c0 <> kUnused ->
  m_controlBuffer m !! N.to_nat (startOf m key + 1) = Some (controlOf key) ->
  m_kvpBuffer m !! N.to_nat (startOf m key + 1) = Some (Some kv) -> kv.1 <> key ->
  (m_kvpBuffer m !! N.to_nat (startOf m key + 3) = Some None ->
   Find (S (S fuel)) m key = Fault UninitializedRead) /\
  (forall kv3 : pair,
     m_kvpBuffer m !! N.to_nat (startOf m key + 3) = Some (Some kv3) -> kv3.1 = key ->
     Find (S (S fuel)) m key = Ok (startOf m key + 3)).
Proof.
  intros Hsimd Hcap Hwide Hin Hc0 Hother Hc0u Hc1 Hkv Hkey.
  assert (Hk1 : keyEquals m (startOf m key + 1) key = Ok false).
  { rewrite (keyEquals_lookup _ _ _ _ Hkv). rewrite bool_decide_eq_false_2; auto. }
  destruct (loadBatch_first_two _ _ _ _ Hwide Hin Hc0 Hc1) as [rest Hload].
  destruct (capacity_to_nat m Hcap) as [n Hn].
  assert (Hfind : forall r : result bool,
            keyEquals m (startOf m key + 3) key = r ->
            (r = Ok true \/ exists f, r = Fault f) ->
            Find (S (S fuel)) m key = (_ <- r;; Ok (startOf m key + 3))).
  { intros r Hk3 Hr. unfold Find, umod.
    pose proof Hcap as Hz. apply N.eqb_neq in Hz. rewrite Hz, Hn, Hsimd.
    cbn [bind negb]. fold (controlOf key).
    apply (FindSimdLoop_second_lane _ _ _ _ _ _ _ c0 rest r Hcap
             (controlOf_used key) Hother Hc0u Hload Hk1 Hk3 Hr). }
  split.
  - intros Hnone.
    rewrite (Hfind (Fault UninitializedRead)); [reflexivity | | right; eauto].
    unfold keyEquals, readKvp. rewrite Hnone. reflexivity.
  - intros kv3 Hkv3 Hkey3.
    rewrite (Hfind (Ok true)); [reflexivity | | left; reflexivity].
    rewrite (keyEquals_lookup _ _ _ _ Hkv3). rewrite bool_decide_eq_true_2; auto.
Qed.

End MoreProofs.

(** ** The data model across the operations *)

Lemma AlignUp_spec (value alignment : N) :
  0 < alignment -> value + alignment <= 2 ^ 64 ->
  (alignment | AlignUp value alignment) /\ AlignUp value alignment < value + alignment.
Proof.
  intros Ha Hv. unfold AlignUp, wrap64.
  replace (value + alignment + (2 ^ 64 - 1))
    with ((value + alignment - 1) + 1 * 2 ^ 64) by lia.
  rewrite N.Div0.mod_add.
  rewrite (N.mod_small (value + alignment - 1)) by lia.
  pose proof (N.div_mod (value + alignment - 1) alignment ltac:(lia)) as Hdm.
  pose proof (N.mod_lt (value + alignment - 1) alignment ltac:(lia)) as Hlt.
  set (q := (value + alignment - 1) / alignment) in *.
  set (r := (value + alignment - 1) mod alignment) in *.
  clearbody q r. rewrite (N.mul_comm alignment q) in Hdm.
  rewrite N.mod_small by lia.
  split; [exists q; reflexivity | lia].
Qed.

Lemma dec64_pred (x : N) : 0 < x < 2 ^ 64 -> dec64 x + 1 = x.
Proof.
  intros Hx. unfold dec64, wrap64.
  replace (x + (2 ^ 64 - 1)) with ((x - 1) + 1 * 2 ^ 64) by lia.
  rewrite N.Div0.mod_add, N.mod_small; lia.
Qed.

Section Invariants.
Context {Key Value : Type} `{EqDecision Key}.
Variable hash : Key -> N.
Variable kUseSimd : bool.
Variable simdAlignment : N.
Variable batchSize : nat.

Local Abbreviation map := (FlatHashMap Key Value).
Local Abbreviation pair := (kvp Key Value).
Local Abbreviation kControlAlignment := (kControlAlignment kUseSimd simdAlignment).
Local Abbreviation kControlBufferPadding := (kControlBufferPadding kUseSimd simdAlignment).
Local Abbreviation controlOf := (controlOf hash).
Local Abbreviation Grow := (Grow (Value := Value) hash kUseSimd simdAlignment batchSize).
Local Abbreviation Find := (Find (Value := Value) hash kUseSimd simdAlignment batchSize).
Local Abbreviation Remove := (Remove (Value := Value) hash kUseSimd simdAlignment batchSize).
Local Abbreviation Insert := (Insert (Value := Value) hash kUseSimd simdAlignment batchSize).
Local Abbreviation InsertUnstable :=
  (InsertUnstable (Value := Value) hash kUseSimd simdAlignment batchSize).
Local Abbreviation Defragment :=
  (Defragment (Value := Value) hash kUseSimd simdAlignment batchSize).
Local Abbreviation FlatHashMap_new :=
  (FlatHashMap_new (Value := Value) hash kUseSimd simdAlignment batchSize).
Local Abbreviation allocated := (allocated (Key := Key) (Value := Value) kUseSimd simdAlignment).
Local Abbreviation wellFormed :=
  (wellFormed (Key := Key) (Value := Value) kUseSimd simdAlignment).

Lemma allocated_wellFormed (capacity : N) :
  capacity < 2 ^ 53 -> (kControlAlignment | capacity) -> capacity <> 0 ->
  wellFormed (allocated capacity).
Proof.
  intros Hrange Haligned Hcap. constructor; cbn [allocated m_capacity m_count m_kvpBuffer].
  - exact Hrange.
  - exact Haligned.
  - intros Hzero. contradiction.
  - apply length_replicate.
  - rewrite (allocated_entries kUseSimd simdAlignment). reflexivity.
  - unfold loadFactorOk. cbn [allocated m_capacity m_count]. lia.
Qed.

Lemma padding_le : 0 < kControlAlignment -> kControlBufferPadding <= kControlAlignment.
Proof.
  intros Halign. unfold kControlBufferPadding.
  destruct (_ =? 1); lia.
Qed.

(** The constructor establishes the data model: the map it returns has a
    capacity that is a multiple of the control alignment, one slot per unit
    of capacity, count 0 and no pair. *)
Theorem constructed_map_wellFormed fuel (m : map) (initialCapacity : N) :
  0 < kControlAlignment -> initialCapacity + kControlAlignment <= 2 ^ 53 ->
  FlatHashMap_new fuel initialCapacity = Ok m ->
  wellFormed m.
Proof.
  intros Halign Hrange Hnew. unfold FlatHashMap_new, constructWith in Hnew.
  assert (H64 : (2 : N) ^ 64 = 2048 * 2 ^ 53) by reflexivity.
  assert (Hp : 0 < (2 : N) ^ 53) by reflexivity.
  destruct (0 <? initialCapacity) eqn:Hpos.
  - apply N.ltb_lt in Hpos.
    apply (Grow_capacity_zero hash) in Hnew; [|reflexivity]. subst m.
    destruct (AlignUp_spec initialCapacity kControlAlignment Halign ltac:(lia))
      as [Hdiv Hlt].
    pose proof (AlignUp_ge initialCapacity kControlAlignment Halign ltac:(lia)) as Hge.
    apply allocated_wellFormed; [lia | exact Hdiv | lia].
  - injection Hnew as <-. constructor; cbn [emptyMap m_capacity m_count m_kvpBuffer].
    + exact Hp.
    + exists 0. reflexivity.
    + reflexivity.
    + reflexivity.
    + reflexivity.
    + unfold loadFactorOk. cbn [emptyMap m_capacity m_count]. lia.
Qed.

Lemma GrowLoop_buffers fuel (m : map) (n : nat) (i : N) (temp temp' : map) :
  GrowLoop (InsertUnstable fuel) m n i temp = Ok temp' ->
  m_capacity temp <> 0 -> m_capacity temp < 2 ^ 60 ->
  10 * (m_count temp + N.of_nat n) <= 7 * m_capacity temp ->
  length (m_kvpBuffer temp') = length (m_kvpBuffer temp) /\
  length (m_controlBuffer temp') = length (m_controlBuffer temp).
Proof.
  revert i temp. induction n as [|n IH]; intros i temp Hloop Hcap Hrange Hbudget.
  - simpl in Hloop. injection Hloop as <-. split; reflexivity.
  - simpl in Hloop. inv_bind Hloop. rename a into c.
    inv_bind Hloop. rename a into temp1.
    destruct (N.land c kAvailableSlotFlag =? 0).
    + inv_bind Ha0. rename a into kv. inv_bind Ha0. destruct a as [temp2 it2].
      cbn [fst] in Ha0. injection Ha0 as ->.
      assert (H64 : (2 : N) ^ 64 = 16 * 2 ^ 60) by reflexivity.
      assert (Hload : loadFactorExceeded temp = false).
      { unfold loadFactorExceeded, wrap64. apply N.ltb_ge.
        rewrite N.mod_small; lia. }
      destruct (InsertUnstable_no_growth hash _ _ _ _ _ _ _ _ Hcap Hload Ha2)
        as (_ & _ & Htemp1).
      assert (Hcap1 : m_capacity temp1 = m_capacity temp) by (subst temp1; reflexivity).
      assert (Hcount1 : m_count temp1 = m_count temp + 1).
      { subst temp1. cbn [m_count]. unfold wrap64. apply N.mod_small. lia. }
      destruct (IH _ _ Hloop) as (Hkvp & Hctl); [congruence | congruence | lia |].
      rewrite Hkvp, Hctl. subst temp1. cbn [m_kvpBuffer m_controlBuffer].
      rewrite !length_insert. split; reflexivity.
    + injection Ha0 as ->.
      apply (IH _ _ Hloop); [assumption | assumption | lia].
Qed.

Lemma Grow_nonempty_shape fuel (m m' : map) (newCapacity : N) :
  0 < kControlAlignment -> m_capacity m <> 0 ->
  0 < newCapacity -> newCapacity + kControlAlignment < 2 ^ 60 ->
  10 * m_count m <= 7 * newCapacity ->
  Grow fuel m newCapacity = Ok m' ->
  m_capacity m' = AlignUp newCapacity kControlAlignment /\
  m_count m' = N.of_nat (length (entries m')) /\
  length (m_kvpBuffer m') = N.to_nat (AlignUp newCapacity kControlAlignment) /\
  length (m_controlBuffer m')
  = N.to_nat (AlignUp newCapacity kControlAlignment + kControlBufferPadding).
Proof.
  intros Halign Hcap Hpos Hrange Hload Hgrow.
  destruct fuel as [|fuel]; simpl in Hgrow; [discriminate|].
  apply N.eqb_neq in Hcap. rewrite Hcap in Hgrow.
  inv_bind Hgrow. rename a into temp.
  unfold constructWith in Ha. apply N.ltb_lt in Hpos. rewrite Hpos in Ha.
  apply N.ltb_lt in Hpos.
  apply (Grow_capacity_zero hash) in Ha; [|reflexivity]. subst temp.
  assert (H64 : (2 : N) ^ 64 = 16 * 2 ^ 60) by reflexivity.
  pose proof (AlignUp_ge newCapacity kControlAlignment Halign ltac:(lia)) as Hge.
  destruct (AlignUp_spec newCapacity kControlAlignment Halign ltac:(lia)) as [_ Hlt].
  pose proof Hgrow as Hbuffers.
  apply GrowLoop_buffers in Hbuffers; cbn [allocated m_capacity m_count] in *;
    [| lia | lia | rewrite N2Nat.id; lia].
  destruct Hbuffers as (Hkvp & Hctl).
  cbn [allocated m_kvpBuffer m_controlBuffer] in Hkvp, Hctl.
  rewrite length_replicate in Hkvp. rewrite length_replicate in Hctl.
  change 0 with (N.of_nat 0) in Hgrow.
  apply (GrowLoop_entries hash) in Hgrow; cbn [allocated m_capacity m_count] in *;
    [| lia | lia | apply allocated_noTombstone | rewrite N2Nat.id; lia].
  destruct Hgrow as (Hcap' & _ & Hent' & Hcount').
  rewrite (allocated_entries kUseSimd simdAlignment), app_nil_r in Hent'.
  rewrite N.add_0_l in Hcount'.
  split; [exact Hcap'|]. split; [|split; assumption].
  rewrite Hcount', (Permutation_length Hent'). reflexivity.
Qed.

(** A stable insert keeps the data model, through the growth it may
    trigger: the capacity stays a multiple of the control alignment, every
    unit of capacity has its slot, the count is the number of pairs held and
    the load factor is at most 0.7. *)
Theorem Insert_preserves_wellFormed fuel (m m' : map) (kv : pair) (r : iterator * bool) :
  0 < kControlAlignment ->
  2 * m_capacity m + kControlAlignment + 32 <= 2 ^ 53 ->
  N.of_nat (length (m_controlBuffer m)) <= 2 ^ 64 ->
  wellFormed m ->
  Insert fuel m kv = Ok (m', r) ->
  wellFormed m'.
Proof.
  intros Halign Hrange Hlen [Hcap53 Haligned Hnull Hslots Hcount Hload] Hins.
  destruct r as [it inserted]. pose proof Hins as Hins0.
  unfold loadFactorOk in Hload.
  assert (H53 : (2 : N) ^ 60 = 128 * 2 ^ 53) by reflexivity.
  assert (H64 : (2 : N) ^ 64 = 16 * 2 ^ 60) by reflexivity.
  assert (Hp : 0 < (2 : N) ^ 53) by reflexivity.
  unfold Insert, FindAndAllocateSlot, FindAndAllocateSlotWith in Hins.
  inv_bind Hins. destruct a as [m2 [it2 inserted2]].
  inv_bind Ha. rename a into m1. clear Hins Ha.
  pose proof (growIfNeeded_room hash kUseSimd simdAlignment batchSize fuel m m1
                ltac:(lia) Hcap53 Hload Ha0) as Hroom.
  assert (Hready : m_capacity m1 <> 0 /\ m_capacity m1 < 2 ^ 53 /\
                   (kControlAlignment | m_capacity m1) /\
                   length (m_kvpBuffer m1) = N.to_nat (m_capacity m1) /\
                   m_count m1 = N.of_nat (length (entries m1)) /\
                   N.of_nat (length (m_controlBuffer m1)) <= 2 ^ 64).
  { pose proof Ha0 as Hgrow. unfold growIfNeeded in Hgrow.
    pose proof (padding_le Halign) as Hpad.
    destruct (m_capacity m =? 0) eqn:Hzero.
    - apply (Grow_capacity_zero hash) in Hgrow; [|apply N.eqb_eq; exact Hzero].
      subst m1. cbn [allocated m_capacity m_count m_kvpBuffer m_controlBuffer] in *.
      destruct (AlignUp_spec 32 kControlAlignment Halign ltac:(lia)) as [Hdiv Hlt].
      pose proof (AlignUp_ge 32 kControlAlignment Halign ltac:(lia)) as Hge.
      rewrite !length_replicate, (allocated_entries kUseSimd simdAlignment), N2Nat.id.
      repeat split; try assumption; try reflexivity; lia.
    - apply N.eqb_neq in Hzero.
      destruct (loadFactorExceeded m) eqn:Hex.
      + unfold wrap64 in Hgrow. rewrite N.mod_small in Hgrow by lia.
        destruct (Grow_nonempty_shape fuel m m1 (m_capacity m * 2) Halign Hzero
                    ltac:(lia) ltac:(lia) ltac:(lia) Hgrow)
          as (Hcap1 & Hcount1 & Hkvp1 & Hctl1).
        destruct (AlignUp_spec (m_capacity m * 2) kControlAlignment Halign ltac:(lia))
          as [Hdiv Hlt].
        pose proof (AlignUp_ge (m_capacity m * 2) kControlAlignment Halign ltac:(lia))
          as Hge1.
        rewrite Hkvp1, Hctl1, Hcap1, N2Nat.id.
        rewrite <- Hcap1 in *.
        repeat split; try assumption; try reflexivity; lia.
      + injection Hgrow as <-. repeat split; assumption. }
  destruct Hready as (Hcap1 & Hrange1 & Haligned1 & Hslots1 & Hcount1 & Hlen1).
  assert (Hload1 : loadFactorExceeded m1 = false).
  { unfold loadFactorExceeded, wrap64. apply N.ltb_ge. rewrite N.mod_small; lia. }
  assert (Hins1 : Insert fuel m1 kv = Ok (m', (it, inserted))).
  { unfold Insert, FindAndAllocateSlot, FindAndAllocateSlotWith in Hins0 |- *.
    rewrite Ha0 in Hins0.
    assert (Hstay : growIfNeeded (Grow fuel) m1 = Ok m1).
    { unfold growIfNeeded. pose proof Hcap1 as Hz. apply N.eqb_neq in Hz.
      rewrite Hz, Hload1. reflexivity. }
    rewrite Hstay. exact Hins0. }
  pose proof (Insert_no_growth_shape hash kUseSimd simdAlignment batchSize
                _ _ _ _ _ _ (fun _ => Hlen1) Hcap1 Hload1 Hins1) as Hshape.
  destruct inserted.
  - destruct Hshape as ((c & Hc & Hav) & Hlt & ->).
    constructor; cbn [m_capacity m_count m_kvpBuffer].
    + exact Hrange1.
    + exact Haligned1.
    + intros Hzero. contradiction.
    + rewrite length_insert. exact Hslots1.
    + unfold entries. cbn [m_kvpBuffer m_controlBuffer].
      rewrite (Permutation_length
                 (entriesOf_claim _ _ _ _ _ kv Hc Hav (controlOf_occupied hash kv.1) Hlt)).
      cbn [length]. fold (entries m1). unfold wrap64. rewrite N.mod_small; lia.
    + unfold loadFactorOk. cbn [m_capacity m_count]. unfold wrap64.
      rewrite N.mod_small; lia.
  - destruct Hshape as (-> & _).
    constructor; try assumption.
    + intros Hzero. contradiction.
    + unfold loadFactorOk. lia.
Qed.

(** [Defragment] keeps the data model: the capacity, the number of slots
    and the load-factor bound are those of the map it was called on, and
    its count is again the number of pairs held. *)
Theorem Defragment_preserves_wellFormed fuel (m m' : map) :
  0 < kControlAlignment -> wellFormed m ->
  Defragment fuel m = Ok m' ->
  wellFormed m'.
Proof.
  intros Halign Hwf Hdefrag. pose proof Hwf as [Hrange Haligned Hnull Hslots Hcount Hload].
  unfold Defragment in Hdefrag.
  destruct (m_capacity m =? 0) eqn:Hzero.
  - injection Hdefrag as <-. exact Hwf.
  - apply N.eqb_neq in Hzero. inv_bind Hdefrag. rename a into temp.
    unfold FlatHashMap_new, constructWith in Ha.
    destruct (0 <? m_capacity m) eqn:Hpos; [|apply N.ltb_ge in Hpos; lia].
    apply (Grow_capacity_zero hash) in Ha; [|reflexivity].
    rewrite AlignUp_multiple in Ha by (assumption || lia). subst temp.
    replace (begin_ m) with (N.of_nat 0) in Hdefrag by reflexivity.
    unfold loadFactorOk in Hload.
    apply (DefragmentLoop_spec hash) in Hdefrag
      as (Hcap' & _ & Hent' & Hcount' & Hslots');
      cbn [allocated m_capacity m_count m_kvpBuffer] in *.
    + rewrite (allocated_entries kUseSimd simdAlignment), app_nil_r, segment_all in Hent'
        by assumption.
      rewrite segment_all, N.add_0_l in Hcount' by assumption.
      rewrite length_replicate in Hslots'.
      constructor.
      * rewrite Hcap'. exact Hrange.
      * rewrite Hcap'. exact Haligned.
      * intros Hz. rewrite Hcap' in Hz. contradiction.
      * rewrite Hcap'. exact Hslots'.
      * rewrite Hcount', (Permutation_length Hent'). reflexivity.
      * unfold loadFactorOk. rewrite Hcap', Hcount', <- Hcount. exact Hload.
    + assumption.
    + assumption.
    + apply allocated_noTombstone.
    + rewrite segment_all, N.add_0_l, <- Hcount by assumption. exact Hload.
Qed.

Lemma entriesOf_release (controls : list N) (slots : list (option pair))
    (i : nat) (c : N) (kv : pair) :
  controls !! i = Some c -> isAvailable c = false -> slots !! i = Some (Some kv) ->
  entriesOf controls slots ≡ₚ kv :: entriesOf (<[i := kTombstone]> controls) slots.
Proof.
  intros Hc Hocc. revert slots i Hc.
  induction controls as [|c0 controls IH]; intros [|s slots] [|i] Hc Hs;
    simpl in *; try discriminate.
  - injection Hc as ->. injection Hs as ->. rewrite Hocc. reflexivity.
  - assert (Hrec := IH slots i Hc Hs).
    destruct s as [kv0|]; [destruct (isAvailable c0)|]; rewrite Hrec; try reflexivity.
    apply perm_swap.
Qed.

(** [Remove] of a key that [Find] locates in an occupied slot removes one
    pair of that key and no other, takes one off the count and keeps the data
    model. *)
Theorem Remove_occupied_slot fuel (m : map) (key : Key) (it : iterator) (c : N) :
  wellFormed m ->
  Find fuel m key = Ok it -> it <> end_ m ->
  m_controlBuffer m !! N.to_nat it = Some c -> isAvailable c = false ->
  exists (m' : map) (kv : pair),
    Remove fuel m key = Ok (m', true) /\
    kv.1 = key /\
    entries m ≡ₚ kv :: entries m' /\
    m_count m' + 1 = m_count m /\
    m_capacity m' = m_capacity m /\
    wellFormed m'.
Proof.
  intros [Hrange Haligned Hnull Hslots Hcount Hload] Hfind Hend Hc Hocc.
  assert (Hheld : exists kv : pair,
            m_kvpBuffer m !! N.to_nat it = Some (Some kv) /\ kv.1 = key).
  { pose proof Hfind as Hf. unfold Find in Hf. inv_bind Hf. apply keyEquals_true.
    destruct kUseSimd; cbn [negb] in Hf.
    - apply FindSimdLoop_sound in Hf as [?|?]; [contradiction | assumption].
    - apply FindScalarLoop_sound in Hf as [?|?]; [contradiction | assumption]. }
  destruct Hheld as (kv & Hkv & Hkey).
  pose proof (lookup_lt_Some _ _ _ Hc) as Hlt.
  pose proof (entriesOf_release _ _ _ _ _ Hc Hocc Hkv) as Hperm. fold (entries m) in Hperm.
  pose proof (Permutation_length Hperm) as Hlen. cbn [length] in Hlen.
  unfold loadFactorOk in Hload.
  assert (H64 : (2 : N) ^ 64 = 2048 * 2 ^ 53) by reflexivity.
  assert (Hdec : dec64 (m_count m) + 1 = m_count m) by (apply dec64_pred; lia).
  eexists. exists kv. split.
  { unfold Remove. fold Find. rewrite Hfind. cbn [bind].
    apply N.eqb_neq in Hend. rewrite Hend. cbn [negb].
    unfold writeControl. cbn [setCount m_controlBuffer].
    apply Nat.ltb_lt in Hlt. rewrite Hlt. reflexivity. }
  cbn [setCount m_capacity m_count m_kvpBuffer m_controlBuffer].
  split; [exact Hkey|]. split; [exact Hperm|]. split; [exact Hdec|].
  split; [reflexivity|].
  constructor; cbn [m_capacity m_count m_kvpBuffer m_controlBuffer].
  - exact Hrange.
  - exact Haligned.
  - intros Hzero. rewrite (Hnull Hzero) in Hc. discriminate.
  - exact Hslots.
  - unfold entries. cbn [m_kvpBuffer m_controlBuffer]. lia.
  - unfold loadFactorOk. cbn [m_capacity m_count]. lia.
Qed.

End Invariants.

(** ** Completion in the scalar build *)

Section Completion.
Context {Key Value : Type} `{EqDecision Key}.
Variable hash : Key -> N.
Variable kUseSimd : bool.
Variable simdAlignment : N.
Variable batchSize : nat.

Local Abbreviation map := (FlatHashMap Key Value).
Local Abbreviation pair := (kvp Key Value).
Local Abbreviation kControlAlignment := (kControlAlignment kUseSimd simdAlignment).
Local Abbreviation kControlBufferPadding := (kControlBufferPadding kUseSimd simdAlignment).
Local Abbreviation controlOf := (controlOf hash).
Local Abbreviation Grow := (Grow (Value := Value) hash kUseSimd simdAlignment batchSize).
Local Abbreviation Insert := (Insert (Value := Value) hash kUseSimd simdAlignment batchSize).
Local Abbreviation InsertUnstable :=
  (InsertUnstable (Value := Value) hash kUseSimd simdAlignment batchSize).
Local Abbreviation Defragment :=
  (Defragment (Value := Value) hash kUseSimd simdAlignment batchSize).
Local Abbreviation DefragmentLoop :=
  (DefragmentLoop (Value := Value) hash kUseSimd simdAlignment batchSize).
Local Abbreviation FlatHashMap_new :=
  (FlatHashMap_new (Value := Value) hash kUseSimd simdAlignment batchSize).
Local Abbreviation allocated := (allocated (Key := Key) (Value := Value) kUseSimd simdAlignment).
Local Abbreviation wellFormed :=
  (wellFormed (Key := Key) (Value := Value) kUseSimd simdAlignment).
Local Abbreviation slotsConstructed := (slotsConstructed (Key := Key) (Value := Value)).
Local Abbreviation hasAvailableSlot := (hasAvailableSlot (Key := Key) (Value := Value)).

Lemma slotsConstructedb_sound (m : map) :
  slotsConstructedb m = true -> slotsConstructed m.
Proof.
  unfold slotsConstructedb. intros Hb. apply andb_prop in Hb as [Hlen Hall].
  apply Nat.eqb_eq in Hlen. split; [exact Hlen|]. intros i Hi.
  pose proof (proj1 (forallb_forall _ _) Hall (N.to_nat i)) as Hslot.
  unfold slotConstructedb in Hslot.
  destruct (m_controlBuffer m !! N.to_nat i) as [c|].
  - exists c. split; [reflexivity|]. intros Hocc. rewrite Hocc in Hslot.
    destruct (m_kvpBuffer m !! N.to_nat i) as [[kv|]|].
    + eauto.
    + discriminate Hslot. apply in_seq. lia.
    + discriminate Hslot. apply in_seq. lia.
  - discriminate Hslot. apply in_seq. lia.
Defined.

(** Fewer pairs than slots: some slot is available. *)
Lemma entriesOf_not_full (controls : list N) (slots : list (option pair)) :
  (forall i, (i < length slots)%nat ->
     exists c, controls !! i = Some c /\
       (isAvailable c = false -> exists kv, slots !! i = Some (Some kv))) ->
  (length (entriesOf controls slots) < length slots)%nat ->
  exists j c, (j < length slots)%nat /\ controls !! j = Some c /\ isAvailable c = true.
Proof.
  revert controls. induction slots as [|s slots IH]; intros controls Hall Hlt.
  - destruct controls; simpl in Hlt; lia.
  - destruct (Hall 0%nat ltac:(simpl; lia)) as (c0 & Hc0 & Hinit).
    destruct controls as [|c controls]; [discriminate|].
    simpl in Hc0. injection Hc0 as ->.
    destruct (isAvailable c0) eqn:Hav.
    + exists 0%nat, c0. simpl. repeat split; [lia | assumption].
    + destruct (Hinit eq_refl) as [kv Hkv]. simpl in Hkv. injection Hkv as ->.
      simpl in Hlt. rewrite Hav in Hlt. simpl in Hlt.
      destruct (IH controls) as (j & c & Hj & Hc & Hcav).
      * intros i Hi. apply (Hall (S i)). simpl. lia.
      * lia.
      * exists (S j), c. simpl. repeat split; [lia | assumption | assumption].
Qed.

Lemma slotsConstructed_available (m : map) :
  slotsConstructed m -> N.of_nat (length (entries m)) < m_capacity m ->
  hasAvailableSlot m.
Proof.
  intros [Hlen Hslots] Hlt.
  destruct (entriesOf_not_full (m_controlBuffer m) (m_kvpBuffer m)) as (j & c & Hj & Hc & Hav).
  - intros i Hi. destruct (Hslots (N.of_nat i) ltac:(lia)) as (c & Hc & Hinit).
    rewrite Nat2N.id in Hc, Hinit. eauto.
  - unfold entries in Hlt. lia.
  - exists (N.of_nat j), c. rewrite Nat2N.id. repeat split; [lia | assumption | assumption].
Qed.

Lemma slotsConstructed_insert (m : map) (it : nat) (control count : N) (kv : pair) :
  slotsConstructed m ->
  slotsConstructed {| m_capacity := m_capacity m;
                      m_count := count;
                      m_kvpBuffer := <[it := Some kv]> (m_kvpBuffer m);
                      m_controlBuffer := <[it := control]> (m_controlBuffer m) |}.
Proof.
  intros [Hlen Hslots]. split; cbn [m_capacity m_kvpBuffer m_controlBuffer].
  - rewrite length_insert. exact Hlen.
  - intros i Hi. destruct (Hslots i Hi) as (c & Hc & Hinit).
    destruct (Nat.eq_dec it (N.to_nat i)) as [->|Hne].
    + exists control. split.
      * apply list_lookup_insert_eq. eapply lookup_lt_Some. exact Hc.
      * intros _. exists kv. apply list_lookup_insert_eq. lia.
    + exists c. rewrite !list_lookup_insert_ne by exact Hne. auto.
Qed.

Lemma slotsConstructed_allocated (capacity : N) : slotsConstructed (allocated capacity).
Proof.
  split; cbn [allocated m_capacity m_kvpBuffer m_controlBuffer].
  - apply length_replicate.
  - intros i Hi. exists kUnused. split; [apply lookup_replicate_2; lia|].
    intros Hocc. discriminate Hocc.
Qed.

Lemma slotsConstructed_setControl (m : map) (it : nat) (count : N) (c : N) :
  slotsConstructed m -> isAvailable c = true ->
  slotsConstructed {| m_capacity := m_capacity m;
                      m_count := count;
                      m_kvpBuffer := m_kvpBuffer m;
                      m_controlBuffer := <[it := c]> (m_controlBuffer m) |}.
Proof.
  intros [Hlen Hslots] Hav. split; cbn [m_capacity m_kvpBuffer m_controlBuffer].
  - exact Hlen.
  - intros i Hi. destruct (Hslots i Hi) as (c0 & Hc0 & Hinit).
    destruct (Nat.eq_dec it (N.to_nat i)) as [->|Hne].
    + exists c. split.
      * apply list_lookup_insert_eq. eapply lookup_lt_Some. exact Hc0.
      * intros Hocc. congruence.
    + exists c0. rewrite list_lookup_insert_ne by exact Hne. auto.
Qed.

(** One unstable insert into the map a loop of [Grow] or [Defragment]
    fills. *)
Lemma InsertUnstable_scalar_step fuel (temp : map) (kv : pair) :
  kUseSimd = false ->
  m_capacity temp <> 0 -> m_capacity temp < 2 ^ 60 ->
  slotsConstructed temp ->
  m_count temp = N.of_nat (length (entries temp)) ->
  10 * (m_count temp + 1) <= 7 * m_capacity temp ->
  exists temp1 it,
    InsertUnstable fuel temp kv = Ok (temp1, it) /\
    m_capacity temp1 = m_capacity temp /\
    slotsConstructed temp1 /\
    m_count temp1 = m_count temp + 1 /\
    m_count temp1 = N.of_nat (length (entries temp1)).
Proof.
  intros Hscalar Hcap Hrange Hcons Hcount Hbudget.
  assert (H64 : (2 : N) ^ 64 = 16 * 2 ^ 60) by reflexivity.
  assert (Hload : loadFactorExceeded temp = false).
  { unfold loadFactorExceeded, wrap64. apply N.ltb_ge. rewrite N.mod_small; lia. }
  assert (Havail : hasAvailableSlot temp)
    by (apply slotsConstructed_available; [exact Hcons | lia]).
  destruct (Insert_scalar_completes hash kUseSimd simdAlignment batchSize fuel temp kv
              Hscalar Hcap Hload Hcons Havail) as [_ (temp1 & it & Hrun & _)].
  exists temp1, it. split; [exact Hrun|].
  destruct (InsertUnstable_no_growth_entries hash _ _ _ _ _ _ _ _ Hcap Hload Hrun)
    as (Hent & _ & Hcap1 & Hcount1 & _).
  destruct (InsertUnstable_no_growth hash _ _ _ _ _ _ _ _ Hcap Hload Hrun)
    as (_ & _ & Htemp1).
  unfold wrap64 in Hcount1. rewrite N.mod_small in Hcount1 by lia.
  split; [exact Hcap1|]. split; [|split; [exact Hcount1|]].
  - rewrite Htemp1. apply slotsConstructed_insert. exact Hcons.
  - rewrite Hcount1, (Permutation_length Hent), Hcount. cbn [length]. lia.
Qed.




Lemma DefragmentLoop_scalar_completes fuel (m : map) :
  kUseSimd = false -> slotsConstructed m ->
  forall (n it : nat) (temp : map),
    N.of_nat it + N.of_nat n <= m_capacity m ->
    m_capacity temp <> 0 -> m_capacity temp < 2 ^ 60 ->
    slotsConstructed temp ->
    m_count temp = N.of_nat (length (entries temp)) ->
    10 * (m_count temp + N.of_nat (length (segment m it n))) <= 7 * m_capacity temp ->
    exists temp',
      DefragmentLoop fuel m n (N.of_nat it) temp = Ok temp' /\ slotsConstructed temp'.
Proof.
  intros Hscalar [Hlen Hslots].
  induction n as [|n IH]; intros it temp Hin Hcap Hrange Hcons Hcount Hbudget.
  - exists temp. cbn [DefragmentLoop]. auto.
  - cbn [DefragmentLoop].
    destruct (Hslots (N.of_nat it) ltac:(lia)) as (c & Hc & Hinit).
    unfold IsValidEntry, readControl. rewrite Hc. cbn [bind].
    rewrite Nat2N.id in Hc, Hinit.
    replace (N.of_nat it + 1) with (N.of_nat (S it)) by lia.
    destruct (N.land c kAvailableSlotFlag =? 0) eqn:Hflag; cbn [negb].
    + assert (Hocc : isAvailable c = false)
        by (unfold isAvailable; rewrite Hflag; reflexivity).
      destruct (Hinit Hocc) as [kv Hkv]. unfold readKvp.
      rewrite Nat2N.id, Hkv. cbn [bind].
      rewrite (segment_keep _ _ _ _ _ Hc Hocc Hkv) in Hbudget. cbn [length] in Hbudget.
      destruct (InsertUnstable_scalar_step fuel temp kv Hscalar Hcap Hrange Hcons Hcount
                  ltac:(lia)) as (temp1 & it1 & Hrun & Hcap1 & Hcons1 & Hcount1 & Hent1).
      unfold EmplaceUnstable. rewrite Hrun. cbn [bind fst].
      apply IH; [lia | congruence | congruence | assumption | assumption |].
      rewrite Hcap1, Hcount1. lia.
    + assert (Hav : isAvailable c = true)
        by (unfold isAvailable; rewrite Hflag; reflexivity).
      rewrite (segment_skip _ _ _ _ Hc Hav) in Hbudget.
      cbn [bind]. apply IH; [lia | assumption..].
Qed.

(** In the scalar build [Defragment] completes on every well-formed map
    whose occupied slots are constructed. *)
Theorem Defragment_scalar_completes fuel (m : map) :
  kUseSimd = false -> 0 < kControlAlignment ->
  wellFormed m -> slotsConstructed m ->
  exists m' : map, Defragment (S fuel) m = Ok m' /\ slotsConstructed m'.
Proof.
  intros Hscalar Halign [Hrange Haligned Hnull Hslots Hcount Hload] Hcons.
  unfold loadFactorOk in Hload. unfold Defragment.
  destruct (m_capacity m =? 0) eqn:Hzero; [eauto|].
  apply N.eqb_neq in Hzero.
  unfold FlatHashMap_new, constructWith.
  replace (0 <? m_capacity m) with true by (symmetry; apply N.ltb_lt; lia).
  cbn [Grow N.eqb m_capacity emptyMap bind].
  rewrite AlignUp_multiple by (assumption || lia).
  assert (H60 : (2 : N) ^ 60 = 128 * 2 ^ 53) by reflexivity.
  replace (begin_ m) with (N.of_nat 0) by reflexivity.
  apply (DefragmentLoop_scalar_completes (S fuel) m Hscalar Hcons
           (N.to_nat (m_capacity m)) 0 (allocated (m_capacity m)));
    cbn [allocated m_capacity m_count].
  - lia.
  - exact Hzero.
  - lia.
  - apply slotsConstructed_allocated.
  - rewrite (allocated_entries kUseSimd simdAlignment). reflexivity.
  - rewrite segment_all by exact Hslots. lia.
Qed.


End Completion.
(** * The defects, on the instance *)

Section Defects.
Import U64.

(** C1 (defect of [Grow]).  The loop of [Grow] runs over the slots below
    [m_count], not below [m_capacity]: the scalar-build map of capacity 16
    holding the keys 5 to 15 has eleven entries, [Grow(32)] re-places only
    those of the slots 0 to 10 and the keys 11 to 15 are gone; so they are
    after the automatic growth of a twelfth insert.  The capacity does
    increase. *)
Theorem Grow_drops_entries :
  (m <- Scalar.mapEleven ;;
   m' <- Scalar.Grow m 32 ;;
   m'' <- state (Scalar.Insert m (16, 160)) ;;
   Ok (m_capacity m, m_count m, entries m,
       (m_capacity m', entries m'), (m_capacity m'', entries m'')))
  = Ok (16, 11, Scalar.elevenKeys,
        (32, [(5, 50); (6, 60); (7, 70); (8, 80); (9, 90); (10, 100)]),
        (32, [(5, 50); (6, 60); (7, 70); (8, 80); (9, 90); (10, 100);
              (16, 160)])).
Proof. vm_compute. reflexivity. Qed.

(** C2 (defects of the scalar [Find] and of [Grow]).  In the scalar build,
    after [Insert({keyA, 10}); Insert({keyB, 20})] the pair of [keyB] is in
    slot 1, and [Find(keyB)] is [end()]; and key 15, found before the
    growth of the twelfth insert, is not found after it, having never been
    removed. *)
Theorem Find_misses_inserted_key :
  (m <- Scalar.mapAB ;;
   it <- Scalar.Find m keyB ;;
   Ok (m_kvpBuffer m !! 1%nat, it, end_ m))
  = Ok (Some (Some (keyB, 20)), 32, 32)
  /\
  (m <- Scalar.mapEleven ;;
   before <- Scalar.Find m 15 ;;
   m' <- state (Scalar.Insert m (16, 160)) ;;
   after <- Scalar.Find m' 15 ;;
   Ok (before, after, end_ m'))
  = Ok (15, 32, 32).
Proof. split; vm_compute; reflexivity. Qed.

(** C3 (defect of the scalar [Find]).  The map holds [keyA] in slot 0
    (control byte 0) and [keyB] in slot 1 (control byte 1, the fragment of
    [keyB]); both keys start at index 0.  The walk of the claim stops at
    slot 1; the code tests the control byte of slot 0 at every step, never
    compares a key, and returns [end()]. *)
Theorem Find_scalar_reads_first_control_only :
  (m <- Scalar.mapAB ;;
   it <- Scalar.Find m keyB ;;
   Ok (hashOf hash_u64 keyB mod m_capacity m, controlOf hash_u64 keyB,
       take 3 (m_controlBuffer m), take 3 (m_kvpBuffer m), it, end_ m))
  = Ok (0, 1, [0; 1; 128], [Some (keyA, 10); Some (keyB, 20); None], 32, 32).
Proof. vm_compute. reflexivity. Qed.

(** C4 (defect of the scalar [FindAndAllocateSlot]).  After
    [Insert({keyA, 10}); Insert({keyB, 20}); Remove(keyA)] slot 0 is a
    tombstone and [keyB] is in slot 1.  In the scalar build
    [Insert({keyB, 21})] claims the tombstone: it returns slot 0 with the
    inserted flag, the count goes from 1 to 2 and the map holds [keyB]
    twice.  The vectorized branch, on the same operations, returns slot 1
    with the flag unset and leaves the count at 1. *)
Theorem Insert_scalar_stops_at_tombstone :
  (m <- Scalar.mapAB_minusA ;;
   r <- Scalar.Insert m (keyB, 21) ;;
   Ok (take 2 (m_controlBuffer m), m_count m, entries m,
       r.2, m_count r.1, entries r.1))
  = Ok ([129; 1], 1, [(keyB, 20)],
        (0, true), 2, [(keyB, 21); (keyB, 20)])
  /\
  (m <- Simd.mapAB_minusA ;;
   r <- Simd.Insert m (keyB, 21) ;;
   Ok (take 2 (m_controlBuffer m), m_count m, entries m,
       r.2, m_count r.1, entries r.1))
  = Ok ([129; 1], 1, [(keyB, 20)],
        (1, false), 1, [(keyB, 20)]).
Proof. split; vm_compute; reflexivity. Qed.

(** C5 (the two strategies differ).  On
    [Insert({keyA, 10}); Insert({keyB, 20}); Find(keyB)] both builds place
    the keys in the slots 0 and 1; the scalar [Find] returns [end()], the
    vectorized one slot 1.  On the further [Remove(keyA); Insert({keyB, 21})]
    the scalar build reports an insertion, the vectorized one does not. *)
Theorem scalar_and_simd_differ :
  (m <- Scalar.mapAB ;; it <- Scalar.Find m keyB ;;
   Ok (entries m, it, end_ m))
  = Ok ([(keyA, 10); (keyB, 20)], 32, 32)
  /\
  (m <- Simd.mapAB ;; it <- Simd.Find m keyB ;;
   Ok (entries m, it, end_ m))
  = Ok ([(keyA, 10); (keyB, 20)], 1, 32)
  /\
  (m <- Scalar.mapAB_minusA ;; r <- Scalar.Insert m (keyB, 21) ;; Ok r.2)
  = Ok (0, true)
  /\
  (m <- Simd.mapAB_minusA ;; r <- Simd.Insert m (keyB, 21) ;; Ok r.2)
  = Ok (1, false).
Proof. repeat split; vm_compute; reflexivity. Qed.

(** C6 (defect of [kControlAlignment]).  The condition of
    [kControlAlignment] is inverted: with vectorized probing the alignment
    is 1 and the padding 0, whatever the architecture.  The first insert
    into a default-constructed map allocates 32 control bytes and no more;
    the 16-lane load at index 17 already leaves the buffer, and inserting
    key 31 is such a load. *)
Theorem simd_control_buffer_has_no_padding :
  (forall simdAlignment : N,
     kControlAlignment true simdAlignment = 1 /\
     kControlBufferPadding true simdAlignment = 0)
  /\
  (m <- state (Simd.Insert (emptyMap N N) (keyA, 10)) ;;
   Ok (m_capacity m, length (m_controlBuffer m),
       loadBatch (Key := N) (Value := N) 16 m 16,
       loadBatch (Key := N) (Value := N) 16 m 17))
  = Ok (32, 32%nat, Ok (replicate 16 128), Fault OutOfBounds)
  /\
  Simd.Insert (emptyMap N N) (31, 10) = Fault OutOfBounds.
Proof. repeat split; vm_compute; reflexivity. Qed.

(** C7 (consequence of the defect of the scalar [Find]).  After
    [Insert({keyA, 10}); Insert({keyC, 30})], three calls of [Remove(keyC)]
    all return true (the second and third find the stale pair of the
    tombstoned slot 1) and [m_count] wraps to [2^64 - 1]; the stable
    [Insert({keyA, 99})] that follows finds [keyA], grows nothing, and
    completes with that count on a capacity of 32. *)
Theorem Insert_completes_above_load_factor :
  (m0 <- Scalar.insertAll (emptyMap N N) [(keyA, 10); (keyC, 30)] ;;
   r1 <- Scalar.Remove m0 keyC ;;
   r2 <- Scalar.Remove r1.1 keyC ;;
   r3 <- Scalar.Remove r2.1 keyC ;;
   r <- Scalar.Insert r3.1 (keyA, 99) ;;
   Ok ([r1.2; r2.2; r3.2], [m_count m0; m_count r1.1; m_count r2.1; m_count r3.1],
       r.2, m_count r.1, m_capacity r.1,
       7 * m_capacity r.1 <? 10 * m_count r.1))
  = Ok ([true; true; true], [2; 1; 0; 2 ^ 64 - 1],
        (0, false), 2 ^ 64 - 1, 32, true).
Proof. vm_compute. reflexivity. Qed.

(** C8 (consequence of the defect of the scalar [Find]).  [Remove(keyB)]
    returns false on the map that holds [keyB] in slot 1; and a second
    [Remove(keyC)] returns true, and decrements the count, on a map from
    which [keyC] was already removed. *)
Theorem Remove_result_is_not_presence :
  (m <- Scalar.mapAB ;;
   r <- Scalar.Remove m keyB ;;
   Ok (entries m, r.2, entries r.1))
  = Ok ([(keyA, 10); (keyB, 20)], false, [(keyA, 10); (keyB, 20)])
  /\
  (m <- Scalar.insertAll (emptyMap N N) [(keyA, 10); (keyC, 30)] ;;
   r1 <- Scalar.Remove m keyC ;;
   r2 <- Scalar.Remove r1.1 keyC ;;
   Ok (r1.2, entries r1.1, m_count r1.1, r2.2, entries r2.1, m_count r2.1))
  = Ok (true, [(keyA, 10)], 1, true, [(keyA, 10)], 0).
Proof. split; vm_compute; reflexivity. Qed.

(** C9 (consequence of the defects of the scalar [Find] and of [Grow]).  On
    a map constructed with capacity 16, [Insert({keyA, 10});
    Insert({keyD, 30}); Remove(keyD); Remove(keyD)] and the insertion of the
    keys 2 to 12: the second [Remove(keyD)] finds the stale pair of the
    tombstoned slot 1 and decrements once more, so the map has twelve
    occupied slots (0 and 2 to 12) for an [m_count] of 11.  [Defragment]
    re-places eleven pairs into the temporary map of capacity 16; placing
    the twelfth finds [(11 + 1) / 16 > 0.7], the temporary map grows to 32,
    and its [Grow] visits the slots 0 to 10 only: key 11 is dropped.  The
    pairs and the capacity have changed. *)
Theorem Defragment_changes_capacity_and_entries :
  (m0 <- Scalar.new 16 ;;
   m0 <- Scalar.insertAll m0 [(keyA, 10); (keyD, 30)] ;;
   r1 <- Scalar.Remove m0 keyD ;;
   r2 <- Scalar.Remove r1.1 keyD ;;
   m <- Scalar.insertAll r2.1 Scalar.keysTwoToTwelve ;;
   m' <- Scalar.Defragment m ;;
   Ok ([r1.2; r2.2], [m_count m0; m_count r1.1; m_count r2.1],
       (m_capacity m, m_count m, entries m),
       (m_capacity m', entries m')))
  = Ok ([true; true], [2; 1; 0],
        (16, 11, (keyA, 10) :: Scalar.keysTwoToTwelve),
        (32, [(keyA, 10); (2, 20); (3, 30); (4, 40); (5, 50); (6, 60); (7, 70);
              (8, 80); (9, 90); (10, 100); (12, 120)])).
Proof. vm_compute. reflexivity. Qed.

End Defects.

(** * The general statements at an input *)

Section Witnesses.
Import U64.

Lemma tombstoned_reached : Scalar.mapAB_minusA = Ok Scalar.tombstoned.
Proof. vm_compute. reflexivity. Qed.

Lemma tombstoned_wellFormed : wellFormed false 16 Scalar.tombstoned.
Proof.
  constructor.
  - reflexivity.
  - exists 2. reflexivity.
  - discriminate.
  - reflexivity.
  - reflexivity.
  - unfold loadFactorOk. simpl. lia.
Defined.

(** [Defragment] of the map with a tombstone in slot 0 and [keyB] in slot 1
    (scalar build). *)
Lemma Defragment_spec_witness :
  wellFormed false 16 Scalar.tombstoned /\
  Scalar.Defragment Scalar.tombstoned = Ok Scalar.defragmented /\
  (noTombstone Scalar.defragmented /\
   entries Scalar.defragmented ≡ₚ entries Scalar.tombstoned /\
   m_capacity Scalar.defragmented = m_capacity Scalar.tombstoned).
Proof.
  assert (Hrun : Scalar.Defragment Scalar.tombstoned = Ok Scalar.defragmented)
    by (vm_compute; reflexivity).
  split; [exact tombstoned_wellFormed|]. split; [exact Hrun|].
  apply (Defragment_spec hash_u64 false 16 16 fuel Scalar.tombstoned Scalar.defragmented).
  - reflexivity.
  - exact tombstoned_wellFormed.
  - exact Hrun.
Defined.

(** [Find], [Remove] and the insert path on a default-constructed map
    (scalar build). *)
Lemma Find_Remove_capacity_zero_witness :
  Scalar.Find (emptyMap N N) keyA = Fault DivideByZero /\
  Scalar.Remove (emptyMap N N) keyA = Fault DivideByZero /\
  exists m1 : map,
    growIfNeeded (Grow hash_u64 false 16 16 (S fuel)) (emptyMap N N) = Ok m1 /\
    32 <= m_capacity m1 /\
    forall Fast,
      FindAndAllocateSlot hash_u64 false 16 16 (S fuel) Fast (emptyMap N N) keyA
      = probeAndAllocate hash_u64 false 16 16 (S fuel) Fast m1 keyA.
Proof.
  apply (Find_Remove_capacity_zero hash_u64 false 16 16 fuel (emptyMap N N) keyA).
  - split; reflexivity.
  - reflexivity.
Defined.

End Witnesses.

(** * The further properties at an input *)

Section MoreWitnesses.
Import U64 Example.

Lemma scalarAB_reached : Scalar.mapAB = Ok scalarAB.
Proof. vm_compute. reflexivity. Qed.

Lemma simdAB_reached : Simd.mapAB = Ok simdAB.
Proof. vm_compute. reflexivity. Qed.

Lemma scalarNew16_reached : Scalar.new 16 = Ok scalarNew16.
Proof. vm_compute. reflexivity. Qed.

Lemma simdAB_in_bounds (key : N) :
  (N.to_nat (hashOf hash_u64 key mod 32) + 16 <= 32)%nat ->
  batchInBounds true 16 simdAB (hashOf hash_u64 key mod m_capacity simdAB).
Proof. intros Hle _. split; [lia | exact Hle]. Defined.

Lemma scalar_in_bounds (m : map) (probeIndex : N) : batchInBounds false 16 m probeIndex.
Proof. intros Hsimd. discriminate Hsimd. Defined.

(** [Find(keyA)] on [scalarAB]. *)
Lemma Find_sound_witness :
  exists kv : kvp N N,
    m_kvpBuffer scalarAB !! N.to_nat 0 = Some (Some kv) /\ kv.1 = keyA.
Proof.
  apply (Find_sound hash_u64 false 16 16 fuel scalarAB keyA 0).
  - vm_compute. reflexivity.
  - vm_compute. discriminate.
Defined.

(** [Find(5)] on [simdAB]: slot 5 was never used. *)
Lemma Find_empty_start_witness :
  Find hash_u64 true 16 16 fuel simdAB 5 = Ok (end_ simdAB).
Proof.
  apply (Find_empty_start hash_u64 true 16 16 fuel simdAB 5).
  - vm_compute. discriminate.
  - vm_compute. reflexivity.
  - apply simdAB_in_bounds. vm_compute. lia.
Defined.

(** [Find(keyA)] on [simdAB]: [keyA] sits in its start slot 0. *)
Lemma Find_start_slot_hit_witness :
  Find hash_u64 true 16 16 (S fuel) simdAB keyA
  = Ok (hashOf hash_u64 keyA mod m_capacity simdAB).
Proof.
  apply (Find_start_slot_hit hash_u64 true 16 16 fuel simdAB keyA (keyA, 10)).
  - vm_compute. discriminate.
  - vm_compute. reflexivity.
  - vm_compute. reflexivity.
  - reflexivity.
  - apply simdAB_in_bounds. vm_compute. lia.
Defined.

(** [Find(keyC)] on [simdAB]: slot 0 holds [keyA], of the same fragment. *)
Lemma Find_simd_diverges_witness :
  Find hash_u64 true 16 16 (1000 * fuel) simdAB keyC = Fault OutOfFuel.
Proof.
  refine (Find_simd_diverges hash_u64 true 16 16 simdAB keyC (keyA, 10)
            _ _ _ _ _ _ (1000 * fuel)%nat).
  - reflexivity.
  - vm_compute. discriminate.
  - vm_compute. reflexivity.
  - vm_compute. reflexivity.
  - vm_compute. discriminate.
  - apply simdAB_in_bounds. vm_compute. lia.
Defined.

(** [Insert({keyC, 30})] on [simdAB]. *)
Lemma Insert_simd_diverges_witness :
  Insert hash_u64 true 16 16 (1000 * fuel) simdAB (keyC, 30) = Fault OutOfFuel.
Proof.
  refine (Insert_simd_diverges hash_u64 true 16 16 simdAB keyC 30 (keyA, 10)
            _ _ _ _ _ _ _ (1000 * fuel)%nat).
  - reflexivity.
  - vm_compute. discriminate.
  - vm_compute. reflexivity.
  - vm_compute. reflexivity.
  - vm_compute. reflexivity.
  - vm_compute. discriminate.
  - apply simdAB_in_bounds. vm_compute. lia.
Defined.

(** [InsertUnstable({5, 50})] on the map with a tombstone in slot 0. *)
Lemma InsertUnstable_adds_pair_witness :
  (exists c, m_controlBuffer Scalar.tombstoned !! N.to_nat 5 = Some c /\
             isAvailable c = true) /\
  m_kvpBuffer tombstoned5 !! N.to_nat 5 = Some (Some (5, 50)) /\
  entries tombstoned5 ≡ₚ (5, 50) :: entries Scalar.tombstoned /\
  m_capacity tombstoned5 = m_capacity Scalar.tombstoned /\
  m_count tombstoned5 = wrap64 (m_count Scalar.tombstoned + 1).
Proof.
  apply (InsertUnstable_adds_pair hash_u64 false 16 16 fuel Scalar.tombstoned
           tombstoned5 (5, 50) 5).
  - vm_compute. discriminate.
  - vm_compute. reflexivity.
  - vm_compute. reflexivity.
Defined.

(** [Insert({keyB, 21})] on [scalarAB], where [keyB] is in slot 1. *)
Lemma Insert_outcome_witness :
  scalarAB = scalarAB /\
  exists kv0 : kvp N N,
    m_kvpBuffer scalarAB !! N.to_nat 1 = Some (Some kv0) /\ kv0.1 = (keyB, 21).1.
Proof.
  apply (Insert_outcome hash_u64 false 16 16 fuel scalarAB scalarAB (keyB, 21) 1 false).
  - vm_compute. discriminate.
  - vm_compute. discriminate.
  - vm_compute. reflexivity.
  - vm_compute. reflexivity.
Defined.

(** [Insert({5, 50})] on [scalarAB]. *)
Lemma Insert_keeps_load_factor_witness :
  loadFactorOk scalarAB5 /\ 0 < m_capacity scalarAB5.
Proof.
  apply (Insert_keeps_load_factor hash_u64 false 16 16 fuel scalarAB scalarAB5
           (5, 50) (5, true)).
  - split; reflexivity.
  - reflexivity.
  - unfold loadFactorOk. vm_compute. discriminate.
  - vm_compute. reflexivity.
Defined.

Lemma Insert_never_shrinks_witness :
  m_capacity scalarAB <= m_capacity scalarAB5 /\
  (m_capacity scalarAB = 0 -> 32 <= m_capacity scalarAB5) /\
  (m_capacity scalarAB <> 0 -> loadFactorExceeded scalarAB = true ->
   2 * m_capacity scalarAB <= m_capacity scalarAB5).
Proof.
  apply (Insert_never_shrinks hash_u64 false 16 16 fuel scalarAB scalarAB5
           (5, 50) (5, true)).
  - split; reflexivity.
  - reflexivity.
  - unfold loadFactorOk. vm_compute. discriminate.
  - vm_compute. reflexivity.
Defined.

(** [Insert({5, 50})] on [simdAB], then [Find(5)]. *)
Lemma Insert_Find_round_trip_witness :
  exists m' : map,
    Insert hash_u64 true 16 16 fuel simdAB (5, 50)
      = Ok (m', (hashOf hash_u64 5 mod m_capacity simdAB, true)) /\
    Find hash_u64 true 16 16 (S fuel) m' 5
      = Ok (hashOf hash_u64 5 mod m_capacity simdAB) /\
    m_kvpBuffer m' !! N.to_nat (hashOf hash_u64 5 mod m_capacity simdAB)
      = Some (Some ((5, 50) : kvp N N)) /\
    IsValidEntry m' (hashOf hash_u64 5 mod m_capacity simdAB) = Ok true.
Proof.
  apply (Insert_Find_round_trip hash_u64 true 16 16 fuel fuel simdAB 5 50).
  - vm_compute. discriminate.
  - vm_compute. reflexivity.
  - vm_compute. reflexivity.
  - vm_compute. lia.
  - apply simdAB_in_bounds. vm_compute. lia.
Defined.

(** [Insert({5, 50}); Remove(5)] on [scalarAB]. *)
Lemma Insert_Remove_restores_witness :
  exists m' m'' : map,
    Insert hash_u64 false 16 16 fuel scalarAB (5, 50)
      = Ok (m', (hashOf hash_u64 5 mod m_capacity scalarAB, true)) /\
    Remove hash_u64 false 16 16 (S fuel) m' 5 = Ok (m'', true) /\
    m_count m'' = m_count scalarAB /\
    m_capacity m'' = m_capacity scalarAB /\
    entries m'' = entries scalarAB /\
    m_controlBuffer m'' !! N.to_nat (hashOf hash_u64 5 mod m_capacity scalarAB)
      = Some kTombstone /\
    IsValidEntry m'' (hashOf hash_u64 5 mod m_capacity scalarAB) = Ok false /\
    (false = false -> forall fuel'', Find hash_u64 false 16 16 fuel'' m'' 5 = Ok (end_ m'')).
Proof.
  apply (Insert_Remove_restores hash_u64 false 16 16 fuel fuel scalarAB 5 50).
  - vm_compute. discriminate.
  - vm_compute. reflexivity.
  - vm_compute. reflexivity.
  - vm_compute. lia.
  - apply scalar_in_bounds.
  - reflexivity.
Defined.

(** [Grow(64)] on [scalarAB], whose two pairs are in the slots 0 and 1. *)
Lemma Grow_replaces_slots_below_count_witness :
  m_capacity scalarAB64 = AlignUp 64 (kControlAlignment false 16) /\
  64 <= m_capacity scalarAB64 /\
  noTombstone scalarAB64 /\
  entries scalarAB64 ≡ₚ segment scalarAB 0 (N.to_nat (m_count scalarAB)) /\
  m_count scalarAB64 = N.of_nat (length (segment scalarAB 0 (N.to_nat (m_count scalarAB)))).
Proof.
  apply (Grow_replaces_slots_below_count hash_u64 false 16 16 fuel scalarAB scalarAB64 64).
  - reflexivity.
  - vm_compute. discriminate.
  - reflexivity.
  - reflexivity.
  - vm_compute. discriminate.
  - vm_compute. reflexivity.
Defined.

(** [FlatHashMap(allocator, 16)] in the scalar build. *)
Lemma constructed_map_is_empty_witness :
  16 <= m_capacity scalarNew16 /\
  m_count scalarNew16 = 0 /\ entries scalarNew16 = [] /\ noTombstone scalarNew16 /\
  forall fuel' key,
    0 < 16 ->
    batchInBounds false 16 scalarNew16 (hashOf hash_u64 key mod m_capacity scalarNew16) ->
    Find hash_u64 false 16 16 fuel' scalarNew16 key = Ok (end_ scalarNew16) /\
    Remove hash_u64 false 16 16 fuel' scalarNew16 key = Ok (scalarNew16, false).
Proof.
  apply (constructed_map_is_empty hash_u64 false 16 16 fuel scalarNew16 16).
  - reflexivity.
  - vm_compute. discriminate.
  - vm_compute. reflexivity.
Defined.

Lemma scalar16with5_constructed : slotsConstructed scalar16with5.
Proof.
  split; [reflexivity|]. intros i Hi.
  assert (Hn : (N.to_nat i < 16)%nat) by (change (m_capacity scalar16with5) with 16 in Hi; lia).
  set (k := N.to_nat i) in *. clearbody k.
  do 16 (destruct k as [|k];
         [vm_compute; eexists; split;
          [reflexivity | intros Hocc; (discriminate Hocc || (eexists; reflexivity))]|]).
  lia.
Defined.

(** [Insert({21, 210})] and [InsertUnstable({21, 210})] on the map of
    capacity 16 that holds key 5 in slot 5, the start slot of key 21. *)
Lemma Insert_scalar_completes_witness :
  (exists m' it inserted,
     Insert hash_u64 false 16 16 fuel scalar16with5 (21, 210) = Ok (m', (it, inserted)) /\
     it < m_capacity scalar16with5) /\
  (exists m' it,
     InsertUnstable hash_u64 false 16 16 fuel scalar16with5 (21, 210) = Ok (m', it) /\
     it < m_capacity scalar16with5).
Proof.
  apply (Insert_scalar_completes hash_u64 false 16 16 fuel scalar16with5 (21, 210)).
  - reflexivity.
  - vm_compute. discriminate.
  - vm_compute. reflexivity.
  - exact scalar16with5_constructed.
  - exists 0, 128. split; [reflexivity|]. split; reflexivity.
Defined.

(** [Find(keyB)] on [scalarAB]: slot 0 holds the fragment of [keyA]. *)
Lemma Find_scalar_first_control_witness :
  Find hash_u64 false 16 16 fuel scalarAB keyB = Ok (end_ scalarAB).
Proof.
  apply (Find_scalar_first_control hash_u64 false 16 16 fuel scalarAB keyB 0).
  - reflexivity.
  - vm_compute. discriminate.
  - vm_compute. reflexivity.
  - vm_compute. discriminate.
  - vm_compute. discriminate.
Defined.

(** [Remove(keyA)] on [scalarAB]. *)
Lemma Remove_effect_witness :
  exists it,
    Find hash_u64 false 16 16 fuel scalarAB keyA = Ok it /\ it <> end_ scalarAB /\
    m_capacity Scalar.tombstoned = m_capacity scalarAB /\
    m_count Scalar.tombstoned = dec64 (m_count scalarAB) /\
    m_controlBuffer Scalar.tombstoned
      = <[N.to_nat it := kTombstone]> (m_controlBuffer scalarAB) /\
    m_kvpBuffer Scalar.tombstoned = m_kvpBuffer scalarAB.
Proof.
  apply (Remove_effect hash_u64 false 16 16 fuel scalarAB Scalar.tombstoned keyA true).
  vm_compute. reflexivity.
Defined.

Lemma scalarAC_minusC_reached :
  (m <- Scalar.insertAll (emptyMap N N) [(keyA, 10); (keyC, 30)] ;;
   state (Scalar.Remove m keyC)) = Ok scalarAC_minusC.
Proof. vm_compute. reflexivity. Qed.

Lemma scalarOnly5_reached :
  Scalar.insertAll (emptyMap N N) [(5, 50)] = Ok scalarOnly5.
Proof. vm_compute. reflexivity. Qed.

Lemma scalarAB_wellFormed : wellFormed false 16 scalarAB.
Proof.
  constructor.
  - reflexivity.
  - exists 2. reflexivity.
  - discriminate.
  - reflexivity.
  - reflexivity.
  - unfold loadFactorOk. simpl. lia.
Defined.

Lemma emptyMap_wellFormed : wellFormed false 16 (emptyMap N N).
Proof.
  constructor.
  - reflexivity.
  - exists 0. reflexivity.
  - reflexivity.
  - reflexivity.
  - reflexivity.
  - unfold loadFactorOk. simpl. lia.
Defined.

(** [Insert({keyA, 11})] on [simdAB], where [keyA] sits in its start slot. *)
Lemma Insert_existing_at_start_witness :
  Insert hash_u64 true 16 16 (S fuel) simdAB (keyA, 11)
  = Ok (simdAB, (hashOf hash_u64 keyA mod m_capacity simdAB, false)).
Proof.
  apply (Insert_existing_at_start hash_u64 true 16 16 fuel simdAB keyA 11 (keyA, 10)).
  - vm_compute. discriminate.
  - vm_compute. reflexivity.
  - vm_compute. reflexivity.
  - vm_compute. reflexivity.
  - reflexivity.
  - apply simdAB_in_bounds. vm_compute. lia.
Defined.

(** [Insert({keyC, 30})] on the map with a tombstone in slot 0, the start
    slot of [keyC]. *)
Lemma Insert_scalar_claims_available_start_witness :
  Insert hash_u64 false 16 16 fuel Scalar.tombstoned (keyC, 30)
  = Ok ({| m_capacity := m_capacity Scalar.tombstoned;
           m_count := wrap64 (m_count Scalar.tombstoned + 1);
           m_kvpBuffer :=
             <[N.to_nat (hashOf hash_u64 keyC mod m_capacity Scalar.tombstoned)
               := Some (keyC, 30)]> (m_kvpBuffer Scalar.tombstoned);
           m_controlBuffer :=
             <[N.to_nat (hashOf hash_u64 keyC mod m_capacity Scalar.tombstoned)
               := controlOf hash_u64 keyC]> (m_controlBuffer Scalar.tombstoned) |},
        (hashOf hash_u64 keyC mod m_capacity Scalar.tombstoned, true)).
Proof.
  apply (Insert_scalar_claims_available_start hash_u64 false 16 16 fuel
           Scalar.tombstoned keyC 30 kTombstone).
  - reflexivity.
  - vm_compute. discriminate.
  - vm_compute. reflexivity.
  - vm_compute. reflexivity.
  - reflexivity.
  - vm_compute. lia.
Defined.

(** [Find(keyC)] on [scalarAC_minusC]: slot 0 holds [keyA] under the
    fragment of [keyC], slot 1 is a tombstone that still holds [keyC]. *)
Lemma Find_scalar_ignores_later_controls_witness :
  Find hash_u64 false 16 16 fuel scalarAC_minusC keyC
  = Ok ((hashOf hash_u64 keyC mod m_capacity scalarAC_minusC + N.of_nat 1)
        mod m_capacity scalarAC_minusC).
Proof.
  apply (Find_scalar_ignores_later_controls hash_u64 false 16 16 fuel
           scalarAC_minusC keyC 1 (keyC, 30)).
  - reflexivity.
  - vm_compute. discriminate.
  - vm_compute. reflexivity.
  - vm_compute. lia.
  - intros j Hj. destruct j as [|j]; [|lia].
    exists (keyA, 10). split; [vm_compute; reflexivity | vm_compute; discriminate].
  - vm_compute. reflexivity.
  - reflexivity.
Defined.

(** [FlatHashMap(allocator, 16)] in the scalar build. *)
Lemma constructed_map_wellFormed_witness : wellFormed false 16 scalarNew16.
Proof.
  apply (constructed_map_wellFormed hash_u64 false 16 16 fuel scalarNew16 16).
  - reflexivity.
  - vm_compute. discriminate.
  - vm_compute. reflexivity.
Defined.

(** [Insert({5, 50})] on a default-constructed map, which grows to 32. *)
Lemma Insert_preserves_wellFormed_witness : wellFormed false 16 scalarOnly5.
Proof.
  apply (Insert_preserves_wellFormed hash_u64 false 16 16 fuel (emptyMap N N)
           scalarOnly5 (5, 50) (5, true)).
  - reflexivity.
  - vm_compute. discriminate.
  - vm_compute. discriminate.
  - exact emptyMap_wellFormed.
  - vm_compute. reflexivity.
Defined.

(** [Defragment] of the map with a tombstone in slot 0. *)
Lemma Defragment_preserves_wellFormed_witness : wellFormed false 16 Scalar.defragmented.
Proof.
  apply (Defragment_preserves_wellFormed hash_u64 false 16 16 fuel
           Scalar.tombstoned Scalar.defragmented).
  - reflexivity.
  - exact tombstoned_wellFormed.
  - vm_compute. reflexivity.
Defined.

(** [Remove(keyA)] on [scalarAB], where [keyA] is in the occupied slot 0. *)
Lemma Remove_occupied_slot_witness :
  exists (m' : map) (kv : kvp N N),
    Remove hash_u64 false 16 16 fuel scalarAB keyA = Ok (m', true) /\
    kv.1 = keyA /\
    entries scalarAB ≡ₚ kv :: entries m' /\
    m_count m' + 1 = m_count scalarAB /\
    m_capacity m' = m_capacity scalarAB /\
    wellFormed false 16 m'.
Proof.
  apply (Remove_occupied_slot hash_u64 false 16 16 fuel scalarAB keyA 0 0).
  - exact scalarAB_wellFormed.
  - vm_compute. reflexivity.
  - vm_compute. discriminate.
  - vm_compute. reflexivity.
  - reflexivity.
Defined.

Lemma simdBA_reached :
  Simd.insertAll (emptyMap N N) [(keyB, 20); (keyA, 10)] = Ok simdBA.
Proof. vm_compute. reflexivity. Qed.

(** [Find(keyC)] on [simdBA]: lane 0 holds the fragment of [keyB], lane 1
    holds [keyA] under the fragment of [keyC]; slot 3 was never
    constructed. *)
Lemma Find_simd_skips_lanes_witness :
  (m_kvpBuffer simdBA !! N.to_nat (hashOf hash_u64 keyC mod m_capacity simdBA + 3)
     = Some None ->
   Find hash_u64 true 16 16 (S (S fuel)) simdBA keyC = Fault UninitializedRead) /\
  (forall kv3 : kvp N N,
     m_kvpBuffer simdBA !! N.to_nat (hashOf hash_u64 keyC mod m_capacity simdBA + 3)
       = Some (Some kv3) ->
     kv3.1 = keyC ->
     Find hash_u64 true 16 16 (S (S fuel)) simdBA keyC
     = Ok (hashOf hash_u64 keyC mod m_capacity simdBA + 3)).
Proof.
  apply (Find_simd_skips_lanes hash_u64 true 16 16 fuel simdBA keyC 1 (keyA, 10)).
  - reflexivity.
  - vm_compute. discriminate.
  - lia.
  - vm_compute. lia.
  - vm_compute. reflexivity.
  - vm_compute. discriminate.
  - vm_compute. discriminate.
  - vm_compute. reflexivity.
  - vm_compute. reflexivity.
  - vm_compute. discriminate.
Defined.

Lemma scalarEleven_reached : Scalar.mapEleven = Ok scalarEleven.
Proof. vm_compute. reflexivity. Qed.



(** [Defragment] of the map with a tombstone in slot 0. *)
Lemma Defragment_scalar_completes_witness :
  exists m' : map,
    Defragment hash_u64 false 16 16 (S fuel) Scalar.tombstoned = Ok m' /\
    slotsConstructed m'.
Proof.
  apply (Defragment_scalar_completes hash_u64 false 16 16 fuel Scalar.tombstoned).
  - reflexivity.
  - reflexivity.
  - exact tombstoned_wellFormed.
  - apply slotsConstructedb_sound. vm_compute. reflexivity.
Defined.


End MoreWitnesses.
